(** * agentlink: the link reconciliation engine

    A shallow embedding of [internal/symlink/manager.go], of the
    [check], [sync] and [clean] command loops of [internal/cli] and of
    the path handling of [internal/config], over a model of the two Go
    packages they call: [path/filepath] (lexical path algebra, Unix
    flavour) and [os] (a POSIX file tree with symbolic links).  Functions that touch the file tree take the world as an
    argument and return it next to their Go result, so a failed call can
    still have changed the tree, as in Go. *)

From Stdlib Require Import ZArith Ascii String.
From stdpp Require Import gmap strings list fin_maps.

Open Scope string_scope.
Open Scope list_scope.

(** ** Go values shared by the packages *)

(** [syscall.Errno], the values a path operation can produce here. *)
Inductive errno :=
| ENOENT | ENOTDIR | ELOOP | EEXIST | ENOTEMPTY | EINVAL | EBUSY | EACCES.

#[global] Instance errno_eq_dec : EqDecision errno.
Proof. solve_decision. Defined.

(** Go's [error] values: the structured errors of [os]
    ([*PathError], [*LinkError]), the error of [filepath.Rel], and
    [fmt.Errorf] messages, plain or wrapping another error with [%w]. *)
Inductive error :=
| PathError (op path : string) (e : errno)
| LinkError (op old new : string) (e : errno)
| RelError (basepath targpath : string)
| Errorf (msg : string)
| Wrapf (msg : string) (cause : error).

(** A Go result [(T, error)]. *)
Inductive result (A : Type) :=
| Ok (a : A)
| Err (e : error).
Arguments Ok {A} a.
Arguments Err {A} e.

Definition is_err {A} (r : result A) : bool :=
  match r with Ok _ => false | Err _ => true end.

(** ** Package [path/filepath] (Unix) *)

Module filepath.

Definition Separator : ascii := "/"%char.

(** [strings.Split(s, "/")]: the fields between separators; never empty. *)
Fixpoint fields (s : string) : list string :=
  match s with
  | EmptyString => [EmptyString]
  | String c s' =>
      if Ascii.eqb c Separator then EmptyString :: fields s'
      else match fields s' with
           | f :: fs => String c f :: fs
           | [] => [String c EmptyString]
           end
  end.

(** The path name elements of a path: its non-empty fields. *)
Definition elements (p : string) : list string :=
  filter (λ e, e ≠ "") (fields p).

Definition join_sep (es : list string) : string := String.concat "/" es.

(** A path name element: not empty, no separator in it. *)
Fixpoint no_sep (e : string) : bool :=
  match e with
  | EmptyString => true
  | String c e' => negb (Ascii.eqb c Separator) && no_sep e'
  end.

Definition is_name (e : string) : Prop := e ≠ "" ∧ no_sep e = true.

(** An element that is neither ["."] nor [".."]. *)
Definition plain (e : string) : Prop := is_name e ∧ e ≠ "." ∧ e ≠ "..".

(** The shape of a cleaned element list: some [".."] elements first,
    none in a rooted path, then plain elements only. *)
Definition cleaned (rooted : bool) (l : list string) : Prop :=
  ∃ n ns, l = replicate n ".." ++ ns ∧ Forall plain ns ∧ (rooted = true → n = 0).

(** [IsAbs]: on Unix, the path begins with a separator. *)
Definition IsAbs (path : string) : bool :=
  match path with
  | String c _ => Ascii.eqb c Separator
  | EmptyString => false
  end.

(** The element loop of [Clean].  [out] is the output written so far,
    last element first.  A [".."] backs up over the previous element when
    there is one that is not itself [".."]; at the start of a rooted path
    it is dropped, at the start of a relative one it is kept. *)
Fixpoint clean_elems (rooted : bool) (out es : list string) : list string :=
  match es with
  | [] => rev out
  | e :: es' =>
      if decide (e = ".") then clean_elems rooted out es'
      else if decide (e = "..") then
        match out with
        | o :: out' =>
            if decide (o = "..") then clean_elems rooted (e :: out) es'
            else clean_elems rooted out' es'
        | [] =>
            if rooted then clean_elems rooted [] es'
            else clean_elems rooted [e] es'
        end
      else clean_elems rooted (e :: out) es'
  end.

(** The cleaned elements of a path. *)
Definition elems (path : string) : list string :=
  clean_elems (IsAbs path) [] (elements path).

(** The string of a cleaned element list. *)
Definition render (rooted : bool) (es : list string) : string :=
  if rooted then "/" +:+ join_sep es
  else match es with [] => "." | _ => join_sep es end.

(** [Clean]: the shortest path name equivalent to [path] by purely
    lexical processing.  The empty path cleans to ["."]. *)
Definition Clean (path : string) : string :=
  render (IsAbs path) (elems path).

(** [Join] of two elements: empty elements are ignored, the rest is
    joined with a separator and cleaned. *)
Definition Join (a b : string) : string :=
  if decide (a = "") then (if decide (b = "") then "" else Clean b)
  else Clean (a +:+ "/" +:+ b).

(** [Dir]: all but the last element of [path], that is [path[:i+1]] for
    [i] the index of the last separator, cleaned. *)
Definition Dir (path : string) : string :=
  Clean (join_sep (removelast (fields path) ++ [""])).

(** The first differing elements of two element lists. *)
Fixpoint strip_common (b t : list string) : list string * list string :=
  match b, t with
  | x :: b', y :: t' => if decide (x = y) then strip_common b' t' else (b, t)
  | _, _ => (b, t)
  end.

(** [Rel]: a relative path that is lexically equivalent to [targpath]
    when joined to [basepath].  Both paths are cleaned first; equal
    paths give ["."].  It fails when one path is rooted and the other is
    not, and when the base has to be left through a [".."] element,
    since the name of that directory is not known lexically.  Otherwise
    the result goes up once for every element of the base after the
    common prefix, then down the rest of the target; it is clean, as
    the package documents. *)
Definition Rel (basepath targpath : string) : result string :=
  let base := Clean basepath in
  let targ := Clean targpath in
  if decide (targ = base) then Ok "."
  else if negb (Bool.eqb (IsAbs base) (IsAbs targ)) then
    Err (RelError basepath targpath)
  else
    let '(b, t) := strip_common (elems base) (elems targ) in
    if decide (head b = Some "..") then Err (RelError basepath targpath)
    else Ok (join_sep (replicate (length b) ".." ++ t)).

(** [join], the body of [Join] for any number of elements: the elements
    from the first non-empty one on, joined with separators and cleaned;
    the empty string when there is none. *)
Fixpoint join (elem : list string) : string :=
  match elem with
  | [] => ""
  | e :: rest => if decide (e = "") then join rest else Clean (join_sep elem)
  end.

End filepath.

(** ** Package [os]: a POSIX file tree

    The file tree is a finite map from physical locations to nodes.
    Paths are resolved the way the kernel resolves them: element by
    element from the root or the working directory, following symbolic
    links on the way, ["."] and [".."] taken physically.  Left out:
    permission bits of files and directories (so the only [EACCES] is
    the one of a link that may not be read), hard links, and the special
    meaning of a trailing separator, which is ignored. *)

Module os.

(** [FileMode] is a 32-bit mask: the type bits of [io/fs] above the
    nine permission bits. *)
Definition FileMode := Z.
Definition ModeDir : FileMode := Z.shiftl 1 31.
Definition ModeSymlink : FileMode := Z.shiftl 1 27.
Definition ModeDevice : FileMode := Z.shiftl 1 26.
Definition ModeNamedPipe : FileMode := Z.shiftl 1 25.
Definition ModeSocket : FileMode := Z.shiftl 1 24.
Definition ModeCharDevice : FileMode := Z.shiftl 1 21.
Definition ModeIrregular : FileMode := Z.shiftl 1 19.
Definition ModeType : FileMode :=
  Z.lor ModeDir (Z.lor ModeSymlink (Z.lor ModeNamedPipe
    (Z.lor ModeSocket (Z.lor ModeDevice (Z.lor ModeCharDevice ModeIrregular))))).

Definition IsRegular (m : FileMode) : bool := (Z.land m ModeType =? 0)%Z.
Definition IsDir (m : FileMode) : bool := negb (Z.land m ModeDir =? 0)%Z.

(** What [Lstat] and [Stat] return; only the mode is ever read. *)
Record FileInfo := { Mode : FileMode }.

(** A node of the tree.  A symbolic link carries its stored target and
    whether its own permission bits allow reading it (BSD and macOS
    honour them: [readlink] and traversal fail with [EACCES] when they
    do not). *)
Inductive inode :=
| RegularFile (content : string)
| Directory
| SymbolicLink (target : string) (readable : bool)
| NamedPipe.

Definition mode_of (i : inode) : FileMode :=
  match i with
  | RegularFile _ => 420%Z
  | Directory => Z.lor ModeDir 493
  | SymbolicLink _ r => Z.lor ModeSymlink (if r then 511 else 0)
  | NamedPipe => Z.lor ModeNamedPipe 420
  end.

(** The physical location of a node: the names from the root down. *)
Abbreviation key := (list string).

(** The world the process runs in: the nodes below the root directory
    (the root itself, key [[]], always exists) and the working directory
    relative paths start from. *)
Record World := { files : gmap key inode; cwd : key }.

Definition inode_at (w : World) (k : key) : option inode :=
  match k with
  | [] => Some Directory
  | _ => files w !! k
  end.

Definition set_files (w : World) (fs : gmap key inode) : World :=
  {| files := fs; cwd := cwd w |}.

(** [has_prefix k k']: [k'] is [k] or lies below it. *)
Fixpoint has_prefix (k k' : key) : bool :=
  match k, k' with
  | [], _ => true
  | x :: k1, y :: k1' => bool_decide (x = y) && has_prefix k1 k1'
  | _ :: _, [] => false
  end.

Definition is_nil {A} (l : list A) : bool :=
  match l with [] => true | _ => false end.

(** Path resolution, as the kernel does it.  [cur] is the directory
    reached so far, [names] what is left of the path.  Symbolic links
    met on the way are followed (at most [budget] of them, then
    [ELOOP]); the last name is followed only when [follow] is set.  A
    last name that does not exist resolves to the place where it would
    be created; the operations below look the place up. *)
Fixpoint walk (budget : nat) (fs : gmap key inode) (follow : bool)
    : key → list string → errno + key :=
  fix go (cur : key) (names : list string) {struct names} : errno + key :=
    match names with
    | [] => inr cur
    | n :: rest =>
        if decide (n = ".") then go cur rest
        else if decide (n = "..") then go (removelast cur) rest
        else
          match fs !! (cur ++ [n]) with
          | None => if is_nil rest then inr (cur ++ [n]) else inl ENOENT
          | Some Directory => go (cur ++ [n]) rest
          | Some (SymbolicLink t r) =>
              if negb follow && is_nil rest then inr (cur ++ [n])
              else if negb r then inl EACCES
              else if decide (t = "") then inl ENOENT
              else
                match budget with
                | O => inl ELOOP
                | S b =>
                    walk b fs follow (if filepath.IsAbs t then [] else cur)
                      (filepath.elements t ++ rest)
                end
          | Some _ => if is_nil rest then inr (cur ++ [n]) else inl ENOTDIR
          end
    end.

(** The kernel's limit on the symbolic links followed in one resolution. *)
Definition MAXSYMLINKS : nat := 40.

Definition namei (w : World) (follow : bool) (name : string) : errno + key :=
  if decide (name = "") then inl ENOENT
  else if filepath.IsAbs name then
    walk MAXSYMLINKS (files w) follow [] (filepath.elements name)
  else
    match inode_at w (cwd w) with
    | Some Directory =>
        walk MAXSYMLINKS (files w) follow (cwd w) (filepath.elements name)
    | _ => inl ENOENT
    end.

Definition IsNotExist (err : error) : bool :=
  match err with
  | PathError _ _ ENOENT => true
  | LinkError _ _ _ ENOENT => true
  | _ => false
  end.

Definition stat_with (op : string) (follow : bool) (name : string) (w : World)
    : result FileInfo :=
  match namei w follow name with
  | inl e => Err (PathError op name e)
  | inr k =>
      match inode_at w k with
      | Some i => Ok {| Mode := mode_of i |}
      | None => Err (PathError op name ENOENT)
      end
  end.

(** [Lstat] describes the named node itself, [Stat] the node a final
    symbolic link leads to. *)
Definition Lstat : string → World → result FileInfo := stat_with "lstat" false.
Definition Stat : string → World → result FileInfo := stat_with "stat" true.

Definition Readlink (name : string) (w : World) : result string :=
  match namei w false name with
  | inl e => Err (PathError "readlink" name e)
  | inr k =>
      match inode_at w k with
      | Some (SymbolicLink t r) =>
          if r then Ok t else Err (PathError "readlink" name EACCES)
      | Some _ => Err (PathError "readlink" name EINVAL)
      | None => Err (PathError "readlink" name ENOENT)
      end
  end.

(** [Symlink oldname newname] creates [newname] as a symbolic link to
    [oldname]; [newname] must not exist. *)
Definition Symlink (oldname newname : string) (w : World) : option error * World :=
  if decide (oldname = "") then
    (Some (LinkError "symlink" oldname newname ENOENT), w)
  else
    match namei w false newname with
    | inl e => (Some (LinkError "symlink" oldname newname e), w)
    | inr k =>
        match inode_at w k with
        | Some _ => (Some (LinkError "symlink" oldname newname EEXIST), w)
        | None => (None, set_files w (<[k := SymbolicLink oldname true]> (files w)))
        end
    end.

Definition Mkdir (name : string) (w : World) : option error * World :=
  match namei w false name with
  | inl e => (Some (PathError "mkdir" name e), w)
  | inr k =>
      match inode_at w k with
      | Some _ => (Some (PathError "mkdir" name EEXIST), w)
      | None => (None, set_files w (<[k := Directory]> (files w)))
      end
  end.

(** The prefix of a path that holds the elements [es]. *)
Definition prefix_path (rooted : bool) (es : list string) : string :=
  (if rooted then "/" else "") +:+ filepath.join_sep es.

(** The recursion of [MkdirAll] over the prefixes of the path; [res] are
    the elements of the prefix, last first.  A prefix that [Stat] finds
    is either a directory (done) or not ([ENOTDIR]); otherwise the parent
    prefix is made first, then the directory itself, and a failing
    [Mkdir] is forgiven when the directory turns out to exist. *)
Fixpoint mkdir_all (rooted : bool) (res : list string) (w : World)
    : option error * World :=
  let path := prefix_path rooted (rev res) in
  match Stat path w with
  | Ok dir =>
      if IsDir (Mode dir) then (None, w)
      else (Some (PathError "mkdir" path ENOTDIR), w)
  | Err _ =>
      let '(perr, w1) :=
        match res with
        | _ :: parent =>
            if is_nil parent then (None, w) else mkdir_all rooted parent w
        | [] => (None, w)
        end in
      match perr with
      | Some err => (Some err, w1)
      | None =>
          match Mkdir path w1 with
          | (None, w2) => (None, w2)
          | (Some err, w2) =>
              match Lstat path w2 with
              | Ok dir => if IsDir (Mode dir) then (None, w2) else (Some err, w2)
              | Err _ => (Some err, w2)
              end
          end
      end
  end.

Definition MkdirAll (path : string) (w : World) : option error * World :=
  mkdir_all (filepath.IsAbs path) (rev (filepath.elements path)) w.

(** A path whose last element is ["."]: [rmdir] refuses it. *)
Definition endsWithDot (path : string) : bool :=
  bool_decide (last (filepath.elements path) = Some ".").

Definition has_children (w : World) (k : key) : bool :=
  bool_decide (filter (λ kv : key * inode, has_prefix k kv.1 = true ∧ kv.1 ≠ k) (files w) ≠ ∅).

(** [Remove] removes the named file, link or empty directory. *)
Definition Remove (name : string) (w : World) : option error * World :=
  match namei w false name with
  | inl e => (Some (PathError "remove" name e), w)
  | inr k =>
      match k, inode_at w k with
      | [], _ => (Some (PathError "remove" name EBUSY), w)
      | _, None => (Some (PathError "remove" name ENOENT), w)
      | _, Some Directory =>
          if endsWithDot name then (Some (PathError "remove" name EINVAL), w)
          else if has_children w k then (Some (PathError "remove" name ENOTEMPTY), w)
          else (None, set_files w (delete k (files w)))
      | _, Some _ => (None, set_files w (delete k (files w)))
      end
  end.

(** [RemoveAll] removes the named node and everything below it.  A
    path that does not exist is not an error.  The root cannot go: what
    is below it is removed and the call fails. *)
Definition RemoveAll (path : string) (w : World) : option error * World :=
  if decide (path = "") then (None, w)
  else if endsWithDot path then (Some (PathError "RemoveAll" path EINVAL), w)
  else
    match namei w false path with
    | inl ENOENT => (None, w)
    | inl e => (Some (PathError "RemoveAll" path e), w)
    | inr k =>
        match inode_at w k with
        | None => (None, w)
        | Some _ =>
            let fs := filter (λ kv : key * inode, has_prefix k kv.1 = false) (files w) in
            match k with
            | [] => (Some (PathError "RemoveAll" path EBUSY), set_files w fs)
            | _ => (None, set_files w fs)
            end
        end
    end.

(** The environment variables of the process. *)
Definition Environ := gmap string string.

(** [Getenv]: the value of the variable, empty when it is not set. *)
Definition Getenv (env : Environ) (key : string) : string :=
  default "" (env !! key).

(** [UserHomeDir]: on Unix the value of [$HOME], an error when that is
    empty. *)
Definition UserHomeDir (env : Environ) : result string :=
  let v := Getenv env "HOME" in
  if decide (v ≠ "") then Ok v
  else Err (Errorf "$HOME is not defined").

(** [Getwd]: an absolute path of the working directory.  When [$PWD]
    is an absolute path that names the working directory (the same node
    as ["."]), that is the answer; otherwise the path the kernel gives,
    from the root down. *)
Definition Getwd (env : Environ) (w : World) : result string :=
  match namei w true "." with
  | inl e => Err (PathError "stat" "." e)
  | inr dot =>
      match inode_at w dot with
      | None => Err (PathError "stat" "." ENOENT)
      | Some _ =>
          let dir := Getenv env "PWD" in
          if filepath.IsAbs dir && bool_decide (namei w true dir = inr dot)
          then Ok dir
          else Ok (prefix_path true (cwd w))
      end
  end.

End os.

(** ** Package [internal/symlink] *)

Module symlink.

(** [LinkStatus] represents the status of a symlink. *)
Inductive LinkStatus :=
| StatusOK
| StatusMissing
| StatusWrongTarget
| StatusNotSymlink
| StatusBroken.

#[global] Instance LinkStatus_eq_dec : EqDecision LinkStatus.
Proof. solve_decision. Defined.

Definition LinkStatus_String (s : LinkStatus) : string :=
  match s with
  | StatusOK => "OK"
  | StatusMissing => "missing"
  | StatusWrongTarget => "wrong target"
  | StatusNotSymlink => "not a symlink"
  | StatusBroken => "broken"
  end.

(** [LinkInfo] contains information about a symlink. *)
Record LinkInfo := {
  Path : string;
  Target : string;
  ExpectedPath : string;
  Status : LinkStatus;
  Error : option error
}.

(** [Manager] handles symlink operations. *)
Record Manager := {
  dryRun : bool;
  force : bool;
  verbose : bool
}.

Definition NewManager (dryRun force verbose : bool) : Manager :=
  {| dryRun := dryRun; force := force; verbose := verbose |}.

(** [ValidateSource] checks if the source file exists and is a regular
    file. *)
Definition ValidateSource (m : Manager) (sourcePath : string) (w : os.World)
    : option error :=
  match os.Lstat sourcePath w with
  | Err err =>
      if os.IsNotExist err then
        Some (Errorf ("source file " +:+ sourcePath +:+ " does not exist"))
      else
        Some (Wrapf ("failed to stat source file " +:+ sourcePath +:+ ": ") err)
  | Ok info =>
      if negb (Z.land (os.Mode info) os.ModeSymlink =? 0)%Z && negb (force m) then
        Some (Errorf ("source file " +:+ sourcePath
                      +:+ " is a symlink (use --force to override)"))
      else if negb (os.IsRegular (os.Mode info))
              && (Z.land (os.Mode info) os.ModeSymlink =? 0)%Z then
        Some (Errorf ("source file " +:+ sourcePath +:+ " is not a regular file"))
      else None
  end.

(** [CheckLink] checks the status of a symlink. *)
Definition CheckLink (m : Manager) (linkPath expectedTarget : string)
    (w : os.World) : LinkInfo :=
  let info status target err :=
    {| Path := linkPath; Target := target; ExpectedPath := expectedTarget;
       Status := status; Error := err |} in
  (* Check if link exists *)
  match os.Lstat linkPath w with
  | Err err =>
      if os.IsNotExist err then info StatusMissing "" None
      else info StatusBroken "" (Some err)
  | Ok linkInfo =>
      (* Check if it's a symlink *)
      if (Z.land (os.Mode linkInfo) os.ModeSymlink =? 0)%Z then
        info StatusNotSymlink "" None
      else
        (* Get the target *)
        match os.Readlink linkPath w with
        | Err err => info StatusBroken "" (Some err)
        | Ok target0 =>
            (* Make target path absolute for comparison *)
            let target :=
              if negb (filepath.IsAbs target0) then
                filepath.Join (filepath.Dir linkPath) target0
              else target0 in
            let target := filepath.Clean target in
            let expectedClean := filepath.Clean expectedTarget in
            if decide (target = expectedClean) then info StatusOK target0 None
            else info StatusWrongTarget target0 None
        end
  end.

(** [CreateLink] creates or fixes a symlink. *)
Definition CreateLink (m : Manager) (linkPath targetPath : string)
    (w : os.World) : option error * os.World :=
  if dryRun m then (None, w) (* Don't actually create in dry-run mode *)
  else
    (* Ensure the parent directory exists *)
    match os.MkdirAll (filepath.Dir linkPath) w with
    | (Some err, w1) =>
        (Some (Wrapf ("failed to create parent directory for " +:+ linkPath +:+ ": ") err), w1)
    | (None, w1) =>
        (* Calculate relative path from link to target *)
        match filepath.Rel (filepath.Dir linkPath) targetPath with
        | Err err =>
            (Some (Wrapf "failed to calculate relative path: " err), w1)
        | Ok relTarget =>
            (* Create the symlink *)
            match os.Symlink relTarget linkPath w1 with
            | (Some err, w2) =>
                (Some (Wrapf ("failed to create symlink " +:+ linkPath +:+ " -> "
                              +:+ relTarget +:+ ": ") err), w2)
            | (None, w2) => (None, w2)
            end
        end
    end.

(** [RemoveLink] removes a symlink if it's managed by agentlink. *)
Definition RemoveLink (m : Manager) (linkPath expectedTarget : string)
    (w : os.World) : option error * os.World :=
  if dryRun m then (None, w)
  else
    let info := CheckLink m linkPath expectedTarget w in
    if decide (Status info = StatusOK) then
      match os.Remove linkPath w with
      | (Some err, w1) =>
          (Some (Wrapf ("failed to remove symlink " +:+ linkPath +:+ ": ") err), w1)
      | (None, w1) => (None, w1)
      end
    else (None, w).

(** [FixLink] creates or fixes a symlink based on its current status. *)
Definition FixLink (m : Manager) (linkPath targetPath : string)
    (w : os.World) : result string * os.World :=
  let info := CheckLink m linkPath targetPath w in
  match Status info with
  | StatusOK => (Ok "skip", w)

  | StatusMissing =>
      match CreateLink m linkPath targetPath w with
      | (Some err, w1) => (Err err, w1)
      | (None, w1) => (Ok "create", w1)
      end

  | StatusWrongTarget =>
      if negb (force m) then
        (Err (Errorf ("symlink " +:+ linkPath +:+ " points to wrong target "
                      +:+ Target info +:+ " (expected " +:+ targetPath
                      +:+ "), use --force to fix")), w)
      else
        match os.Remove linkPath w with
        | (Some err, w1) =>
            (Err (Wrapf ("failed to remove wrong symlink " +:+ linkPath +:+ ": ") err), w1)
        | (None, w1) =>
            match CreateLink m linkPath targetPath w1 with
            | (Some err, w2) => (Err err, w2)
            | (None, w2) => (Ok "fix", w2)
            end
        end

  | StatusNotSymlink =>
      if negb (force m) then
        (Err (Errorf ("file " +:+ linkPath
                      +:+ " exists and is not a symlink, use --force to replace")), w)
      else
        match os.RemoveAll linkPath w with
        | (Some err, w1) =>
            (Err (Wrapf ("failed to remove existing file " +:+ linkPath +:+ ": ") err), w1)
        | (None, w1) =>
            match CreateLink m linkPath targetPath w1 with
            | (Some err, w2) => (Err err, w2)
            | (None, w2) => (Ok "replace", w2)
            end
        end

  | StatusBroken =>
      match os.Remove linkPath w with
      | (Some err, w1) =>
          (Err (Wrapf ("failed to remove broken symlink " +:+ linkPath +:+ ": ") err), w1)
      | (None, w1) =>
          match CreateLink m linkPath targetPath w1 with
          | (Some err, w2) => (Err err, w2)
          | (None, w2) => (Ok "fix broken", w2)
          end
      end
  end.

End symlink.

(** ** Package [internal/cli]: the [sync], [check] and [clean] commands *)

Module cli.

(** What a command prints is kept as the list of its formatted writes,
    in order: the stream, the format string and the arguments. *)
Inductive stream := Stdout | Stderr.

Inductive arg :=
| AString (s : string)
| AError (e : error)
| AInt (n : nat)
| ASprintf (format : string) (e : error).  (* the string [fmt.Sprintf(format, e)] *)

Record write := { to : stream; format : string; args : list arg }.

Definition nl : string := String (ascii_of_nat 10) "".

Definition Printf (format : string) (args : list arg) : write :=
  {| to := Stdout; format := format; args := args |}.
Definition Fprintf_Stderr (format : string) (args : list arg) : write :=
  {| to := Stderr; format := format; args := args |}.

Definition printInfo (format : string) (args : list arg) : write :=
  Printf ("[info] " +:+ format +:+ nl) args.
Definition printOK (format : string) (args : list arg) : write :=
  Printf ("[ok] " +:+ format +:+ nl) args.
Definition printCreate (format : string) (args : list arg) : write :=
  Printf ("[create] " +:+ format +:+ nl) args.
Definition printSkip (format : string) (args : list arg) : write :=
  Printf ("[skip] " +:+ format +:+ nl) args.
Definition printError (format : string) (args : list arg) : write :=
  Fprintf_Stderr ("[error] " +:+ format +:+ nl) args.

(** [config.Config], as [LoadConfig] returns it. *)
Record Config := { Source : string; Links : list string }.

(** The command flags, package-level variables set by the root command. *)
Record Flags := { dryRun : bool; force : bool; verbose : bool }.

Definition processLink (fl : Flags) (manager : symlink.Manager)
    (linkPath sourcePath : string) (w : os.World)
    : option error * os.World * list write :=
  let pre :=
    if verbose fl then [printInfo "Processing link: %s" [AString linkPath]]
    else [] in
  match symlink.FixLink manager linkPath sourcePath w with
  | (Err err, w1) => (Some err, w1, pre)
  | (Ok action, w1) =>
      let line :=
        if decide (action = "skip") then
          if verbose fl then
            [printSkip "%s already links to %s" [AString linkPath; AString sourcePath]]
          else []
        else if decide (action = "create") then
          [printCreate "%s -> %s" [AString linkPath; AString sourcePath]]
        else if decide (action = "fix") then
          [printOK "Fixed %s -> %s" [AString linkPath; AString sourcePath]]
        else if decide (action = "replace") then
          [printOK "Replaced %s -> %s" [AString linkPath; AString sourcePath]]
        else if decide (action = "fix broken") then
          [printOK "Fixed broken %s -> %s" [AString linkPath; AString sourcePath]]
        else [] in
      (None, w1, pre ++ line)
  end.

(** The state of the link loop of [runSync]: the [hasErrors] flag, the
    world and what was printed so far. *)
Definition sync_step (fl : Flags) (manager : symlink.Manager) (source : string)
    (st : bool * os.World * list write) (linkPath : string)
    : bool * os.World * list write :=
  let '(hasErrors, w, out) := st in
  match processLink fl manager linkPath source w with
  | (Some err, w1, o) =>
      (true, w1,
       out ++ o ++ [printError "Failed to process %s: %v" [AString linkPath; AError err]])
  | (None, w1, o) => (hasErrors, w1, out ++ o)
  end.

(** [runSync], from the point where the configuration is loaded. *)
Definition runSync (fl : Flags) (configPath : string) (isProject : bool)
    (cfg : Config) (w : os.World) : option error * os.World * list write :=
  let out0 :=
    if verbose fl then
      if isProject then [printInfo "Using project config: %s" [AString configPath]]
      else [printInfo "Using global config: %s" [AString configPath]]
    else [] in
  (* Create symlink manager *)
  let manager := symlink.NewManager (dryRun fl) (force fl) (verbose fl) in
  (* Validate source file *)
  match symlink.ValidateSource manager (Source cfg) w with
  | Some err =>
      (Some err, w, out0 ++ [printError "Source validation failed: %v" [AError err]])
  | None =>
      let out1 := out0 ++ [printOK "Source: %s" [AString (Source cfg)]] in
      (* Process each link *)
      let '(hasErrors, w1, out2) :=
        fold_left (sync_step fl manager (Source cfg)) (Links cfg) (false, w, out1) in
      if hasErrors then (Some (Errorf "sync completed with errors"), w1, out2)
      else if dryRun fl then
        (None, w1, out2 ++ [printInfo "Dry run completed - no changes made" []])
      else (None, w1, out2)
  end.

(** [sourceStatus == "OK"]: a string made by [Sprintf("ERROR: %v", _)]
    is never ["OK"]. *)
Definition is_OK (a : arg) : bool :=
  match a with
  | AString s => bool_decide (s = "OK")
  | _ => false
  end.

(** The line [runCheck] prints for one link: the path column, then what
    the status calls for. *)
Definition check_line (source : string) (maxPathLen : nat) (linkPath : string)
    (info : symlink.LinkInfo) : list write :=
  Printf "  %-*s -> " [AInt maxPathLen; AString linkPath] ::
  match symlink.Status info with
  | symlink.StatusOK => [Printf ("%s ✓" +:+ nl) [AString source]]
  | symlink.StatusMissing => [Printf ("missing" +:+ nl) []]
  | symlink.StatusWrongTarget =>
      [Printf ("%s (expected %s) ✗" +:+ nl)
         [AString (symlink.Target info); AString source]]
  | symlink.StatusNotSymlink => [Printf ("not a symlink ✗" +:+ nl) []]
  | symlink.StatusBroken =>
      match symlink.Error info with
      | Some err => [Printf ("broken: %v ✗" +:+ nl) [AError err]]
      | None => [Printf ("broken ✗" +:+ nl) []]
      end
  end.

(** The loop that computes [maxPathLen]. *)
Definition max_path_len (links : list string) : nat :=
  fold_left (λ maxPathLen linkPath,
               if decide (maxPathLen < String.length linkPath)
               then String.length linkPath else maxPathLen) links 0.

Definition check_step (manager : symlink.Manager) (source : string)
    (maxPathLen : nat) (w : os.World)
    (st : bool * list write) (linkPath : string) : bool * list write :=
  let '(hasProblems, out) := st in
  let info := symlink.CheckLink manager linkPath source w in
  let hasProblems :=
    if decide (symlink.Status info ≠ symlink.StatusOK) then true else hasProblems in
  (hasProblems, out ++ check_line source maxPathLen linkPath info).

(** [runCheck], from the point where the configuration is loaded.  It
    never changes the world, so it does not return one. *)
Definition runCheck (fl : Flags) (configPath : string) (isProject : bool)
    (cfg : Config) (w : os.World) : option error * list write :=
  let out0 :=
    if verbose fl then
      if isProject then [printInfo "Checking project config: %s" [AString configPath]]
      else [printInfo "Checking global config: %s" [AString configPath]]
    else [] in
  (* Create symlink manager *)
  let manager := symlink.NewManager false false (verbose fl) in
  (* Check source file *)
  let '(sourceStatus, hasProblems) :=
    match symlink.ValidateSource manager (Source cfg) w with
    | Some err => (ASprintf "ERROR: %v" err, true)
    | None => (AString "OK", false)
    end in
  (* Print header *)
  let out1 :=
    out0 ++ [Printf ("Source: %s [%s]" +:+ nl) [AString (Source cfg); sourceStatus];
             Printf ("Links:" +:+ nl) []] in
  (* Calculate max path length for formatting *)
  let maxPathLen := max_path_len (Links cfg) in
  let '(hasProblems, out2) :=
    fold_left (check_step manager (Source cfg) maxPathLen w) (Links cfg)
      (hasProblems, out1) in
  if hasProblems || negb (is_OK sourceStatus) then
    (Some (Errorf "configuration has problems"),
     out2 ++ [Printf (nl +:+ "Found problems. Run 'agentlink sync' to fix them." +:+ nl) []])
  else
    (None, out2 ++ [Printf (nl +:+ "All links are correctly configured ✓" +:+ nl) []]).

Definition printWarning (format : string) (args : list arg) : write :=
  Fprintf_Stderr ("[warning] " +:+ format +:+ nl) args.

(** The state of the link loop of [runClean]: [removedCount],
    [skippedCount], the world and what was printed so far.  A removal
    that fails prints its error and goes on to the next link
    ([continue]) without counting. *)
Definition clean_step (fl : Flags) (manager : symlink.Manager) (source : string)
    (st : nat * nat * os.World * list write) (linkPath : string)
    : nat * nat * os.World * list write :=
  let '(removedCount, skippedCount, w, out) := st in
  let out :=
    if verbose fl then out ++ [printInfo "Processing link: %s" [AString linkPath]]
    else out in
  let info := symlink.CheckLink manager linkPath source w in
  match symlink.Status info with
  | symlink.StatusOK =>
      (* This is a symlink pointing to our source - remove it *)
      match (if negb (dryRun fl) then symlink.RemoveLink manager linkPath source w
             else (None, w)) with
      | (Some err, w1) =>
          (removedCount, skippedCount, w1,
           out ++ [printError "Failed to remove %s: %v" [AString linkPath; AError err]])
      | (None, w1) =>
          (S removedCount, skippedCount, w1,
           out ++ [printOK "Removed %s" [AString linkPath]])
      end

  | symlink.StatusMissing =>
      (removedCount, S skippedCount, w,
       if verbose fl then out ++ [printSkip "%s (already missing)" [AString linkPath]]
       else out)

  | symlink.StatusWrongTarget =>
      (removedCount, S skippedCount, w,
       out ++ [printWarning "Skipped %s (points to %s, not %s)"
                 [AString linkPath; AString (symlink.Target info); AString source]])

  | symlink.StatusNotSymlink =>
      (removedCount, S skippedCount, w,
       out ++ [printWarning "Skipped %s (not a symlink)" [AString linkPath]])

  | symlink.StatusBroken =>
      (* Remove broken symlinks *)
      match (if negb (dryRun fl) then os.Remove linkPath w else (None, w)) with
      | (Some err, w1) =>
          (removedCount, skippedCount, w1,
           out ++ [printError "Failed to remove broken symlink %s: %v"
                     [AString linkPath; AError err]])
      | (None, w1) =>
          (S removedCount, skippedCount, w1,
           out ++ [printOK "Removed broken symlink %s" [AString linkPath]])
      end
  end.

(** [runClean], from the point where the configuration is loaded. *)
Definition runClean (fl : Flags) (configPath : string) (isProject : bool)
    (cfg : Config) (w : os.World) : option error * os.World * list write :=
  let out0 :=
    if verbose fl then
      if isProject then [printInfo "Cleaning project links from: %s" [AString configPath]]
      else [printInfo "Cleaning global links from: %s" [AString configPath]]
    else [] in
  (* Create symlink manager *)
  let manager := symlink.NewManager (dryRun fl) (force fl) (verbose fl) in
  let out1 :=
    out0 ++ [printInfo "Source: %s (will NOT be removed)" [AString (Source cfg)]] in
  (* Process each link *)
  let '(removedCount, skippedCount, w1, out2) :=
    fold_left (clean_step fl manager (Source cfg)) (Links cfg) (0, 0, w, out1) in
  (* Summary *)
  if dryRun fl then
    (None, w1,
     out2 ++ [printInfo "Dry run completed - would remove %d symlinks, skip %d items"
                [AInt removedCount; AInt skippedCount]])
  else
    (None, w1,
     out2 ++ [printInfo "Clean completed - removed %d symlinks, skipped %d items"
                [AInt removedCount; AInt skippedCount]]).

End cli.

(** ** Package [internal/config] *)

Module config.

(** [Validate] validates the configuration. *)
Definition Validate (c : cli.Config) : option error :=
  if decide (cli.Source c = "") then Some (Errorf "source cannot be empty")
  else if decide (length (cli.Links c) = 0) then
    Some (Errorf "links cannot be empty")
  else None.

(** [expandPath] expands ~ and makes relative paths absolute. *)
Definition expandPath (env : os.Environ) (path baseDir : string) : result string :=
  (* Handle ~ expansion *)
  let expanded :=
    if String.prefix "~/" path then
      match os.UserHomeDir env with
      | Err err => Err (Wrapf "failed to get home directory: " err)
      | Ok homeDir =>
          Ok (filepath.Join homeDir
                (String.substring 2 (String.length path - 2) path))
      end
    else Ok path in
  match expanded with
  | Err err => Err err
  | Ok path =>
      (* Make relative paths absolute *)
      let path :=
        if negb (filepath.IsAbs path) then filepath.Join baseDir path else path in
      Ok (filepath.Clean path)
  end.

(** The loop of [ExpandPaths] over the links.  The slice is updated in
    place: when a link fails, the links before it are already expanded
    and the failing one has become the empty string [expandPath]
    returns with an error. *)
Fixpoint expandLinks (env : os.Environ) (configDir : string) (links : list string)
    : option error * list string :=
  match links with
  | [] => (None, [])
  | link :: rest =>
      match expandPath env link configDir with
      | Err err =>
          (Some (Wrapf ("failed to expand link path " +:+ link +:+ ": ") err),
           "" :: rest)
      | Ok p =>
          let '(err, rest') := expandLinks env configDir rest in
          (err, p :: rest')
      end
  end.

(** [ExpandPaths] expands ~ and makes relative paths absolute based on
    [configDir]; it returns the configuration as the call leaves it. *)
Definition ExpandPaths (env : os.Environ) (c : cli.Config) (configDir : string)
    : option error * cli.Config :=
  (* Expand source path *)
  match expandPath env (cli.Source c) configDir with
  | Err err =>
      (Some (Wrapf "failed to expand source path: " err),
       {| cli.Source := ""; cli.Links := cli.Links c |})
  | Ok source =>
      (* Expand link paths *)
      let '(err, links) := expandLinks env configDir (cli.Links c) in
      (err, {| cli.Source := source; cli.Links := links |})
  end.

(** [filepath.Abs]: an absolute path is cleaned, a relative one is
    joined to the working directory. *)
Definition Abs (env : os.Environ) (path : string) (w : os.World) : result string :=
  if filepath.IsAbs path then Ok (filepath.Clean path)
  else
    match os.Getwd env w with
    | Err err => Err err
    | Ok wd => Ok (filepath.Join wd path)
    end.

(** [FindConfigPath] finds the appropriate config file path: the
    project config ([.agentlink.yaml]) if it exists, otherwise the
    global config path.  The errors of [Abs] and [UserHomeDir] are
    dropped; both return the empty string with an error. *)
Definition FindConfigPath (env : os.Environ) (w : os.World) : string * bool :=
  (* Check for project config first *)
  let projectConfig := ".agentlink.yaml" in
  match os.Stat projectConfig w with
  | Ok _ =>
      let abs := match Abs env projectConfig w with Ok abs => abs | Err _ => "" end in
      (abs, true)
  | Err _ =>
      (* Return global config path (may not exist yet) *)
      let homeDir :=
        match os.UserHomeDir env with Ok homeDir => homeDir | Err _ => "" end in
      (filepath.join [homeDir; ".config"; "agentlink"; "config.yaml"], false)
  end.

(** [LoadConfig], from the point where the file at [path] is read and
    [yaml.Unmarshal] has filled in [config]. *)
Definition LoadConfig (env : os.Environ) (path : string) (config : cli.Config)
    : result cli.Config :=
  (* Validate config *)
  match Validate config with
  | Some err => Err (Wrapf ("invalid config in " +:+ path +:+ ": ") err)
  | None =>
      (* Expand paths *)
      match ExpandPaths env config (filepath.Dir path) with
      | (Some err, _) =>
          Err (Wrapf ("failed to expand paths in " +:+ path +:+ ": ") err)
      | (None, config') => Ok config'
      end
  end.

End config.

(** ** Vocabulary of the statements *)

(** What the path [path] names in [w], without following a final
    symbolic link: the node, or the error of the resolution. *)
Definition entry_at (path : string) (w : os.World) : errno + os.inode :=
  match os.namei w false path with
  | inl e => inl e
  | inr k =>
      match os.inode_at w k with
      | Some i => inr i
      | None => inl ENOENT
      end
  end.

Definition is_symlink (i : os.inode) : bool :=
  match i with os.SymbolicLink _ _ => true | _ => false end.

Definition is_regular (i : os.inode) : bool :=
  match i with os.RegularFile _ => true | _ => false end.

(** The stored target [t] of a link at [linkPath] names [source]
    lexically: the comparison [CheckLink] makes. *)
Definition names_source (linkPath t source : string) : Prop :=
  filepath.Clean (if negb (filepath.IsAbs t)
                  then filepath.Join (filepath.Dir linkPath) t else t)
  = filepath.Clean source.

#[global] Instance names_source_dec linkPath t source :
  Decision (names_source linkPath t source).
Proof. unfold names_source. apply _. Defined.

(** The classification of a link from what its path names. *)
Definition classify (linkPath source : string) (e : errno + os.inode)
    : symlink.LinkStatus :=
  match e with
  | inl ENOENT => symlink.StatusMissing
  | inl _ => symlink.StatusBroken
  | inr (os.SymbolicLink t true) =>
      if decide (names_source linkPath t source) then symlink.StatusOK
      else symlink.StatusWrongTarget
  | inr (os.SymbolicLink _ false) => symlink.StatusBroken
  | inr _ => symlink.StatusNotSymlink
  end.

(** The decision table of the reconciler: the action for a status under
    the force policy, or [None] for a conflict. *)
Definition decision (st : symlink.LinkStatus) (force : bool) : option string :=
  match st with
  | symlink.StatusOK => Some "skip"
  | symlink.StatusMissing => Some "create"
  | symlink.StatusWrongTarget => if force then Some "fix" else None
  | symlink.StatusNotSymlink => if force then Some "replace" else None
  | symlink.StatusBroken => Some "fix broken"
  end.

(** The removal a row of the table starts with: none for [OK] and
    [Missing], the entry itself for [WrongTarget] and [Broken], the
    entry and all below it for [NotSymlink]. *)
Definition removal (st : symlink.LinkStatus) (linkPath : string) (w : os.World)
    : option error * os.World :=
  match st with
  | symlink.StatusOK | symlink.StatusMissing => (None, w)
  | symlink.StatusWrongTarget | symlink.StatusBroken => os.Remove linkPath w
  | symlink.StatusNotSymlink => os.RemoveAll linkPath w
  end.

(** The last step of every mutating row of [FixLink]: the result of
    [CreateLink] turned into the action or the error. *)
Definition then_create (action : string) (r : option error * os.World)
    : result string * os.World :=
  match r with
  | (Some err, w1) => (Err err, w1)
  | (None, w1) => (Ok action, w1)
  end.

(** The link at [linkPath] is in place: a readable symbolic link whose
    stored target is the relative path from its directory to [source]. *)
Definition link_installed (linkPath source : string) (w : os.World) : Prop :=
  ∃ rel, filepath.Rel (filepath.Dir linkPath) source = Ok rel
         ∧ entry_at linkPath w = inr (os.SymbolicLink rel true).

(** A dangling link: the link itself can be read, what it points to
    does not exist. *)
Definition dangling (linkPath : string) (w : os.World) : Prop :=
  (∃ t, os.Readlink linkPath w = Ok t)
  ∧ ∃ err, os.Stat linkPath w = Err err ∧ os.IsNotExist err = true.

(** [w'] still holds every node of [w] that is not a symbolic link:
    regular files with their content, directories, pipes. *)
Definition keeps_files (w w' : os.World) : Prop :=
  ∀ k i, os.files w !! k = Some i → is_symlink i = false →
         os.files w' !! k = Some i.

(** The report of [check] on the links: for every configured link, in
    order, the line of its classification in [w]. *)
Definition check_report (manager : symlink.Manager) (cfg : cli.Config)
    (w : os.World) : list cli.write :=
  flat_map
    (λ linkPath,
       cli.check_line (cli.Source cfg) (cli.max_path_len (cli.Links cfg)) linkPath
         (symlink.CheckLink manager linkPath (cli.Source cfg) w))
    (cli.Links cfg).

(** What [sync] and [check] print before they look at the source. *)
Definition sync_banner (fl : cli.Flags) (configPath : string) (isProject : bool)
    : list cli.write :=
  if cli.verbose fl then
    if isProject then [cli.printInfo "Using project config: %s" [cli.AString configPath]]
    else [cli.printInfo "Using global config: %s" [cli.AString configPath]]
  else [].

Definition check_banner (fl : cli.Flags) (configPath : string) (isProject : bool)
    : list cli.write :=
  if cli.verbose fl then
    if isProject then [cli.printInfo "Checking project config: %s" [cli.AString configPath]]
    else [cli.printInfo "Checking global config: %s" [cli.AString configPath]]
  else [].

(** What the path names when a final symbolic link is followed too:
    what [Stat] describes and a read of the file sees. *)
Definition entry_through (path : string) (w : os.World) : errno + os.inode :=
  match os.namei w true path with
  | inl e => inl e
  | inr k =>
      match os.inode_at w k with
      | Some i => inr i
      | None => inl ENOENT
      end
  end.

(** A symbolic link that may not be read. *)
Definition unreadable (i : os.inode) : bool :=
  match i with os.SymbolicLink _ false => true | _ => false end.

(** [w'] still holds every node of [w] other than the links that may
    not be read, and has the same working directory. *)
Definition keeps_live (w w' : os.World) : Prop :=
  os.cwd w' = os.cwd w
  ∧ ∀ k i, os.files w !! k = Some i → unreadable i = false →
           os.files w' !! k = Some i.

(** [w'] has no node that [w] has not, and the same working directory. *)
Definition shrinks (w w' : os.World) : Prop :=
  os.files w' ⊆ os.files w ∧ os.cwd w' = os.cwd w.

(** The path down to [k] is made of directories of the tree, [k]
    included: no symbolic link on the way. *)
Definition real_dirs (w : os.World) (k : list string) : Prop :=
  ∀ n, 0 < n ≤ length k → os.files w !! take n k = Some os.Directory.

(** Every configured link is classified [OK] in [w]. *)
Definition all_ok (cfg : cli.Config) (w : os.World) : Prop :=
  ∀ m linkPath, linkPath ∈ cli.Links cfg →
    symlink.Status (symlink.CheckLink m linkPath (cli.Source cfg) w)
    = symlink.StatusOK.

(** What [sync] prints for links that are all in place: nothing, or
    with [verbose] the two lines of every link. *)
Definition skip_report (fl : cli.Flags) (cfg : cli.Config) : list cli.write :=
  flat_map
    (λ linkPath,
       if cli.verbose fl then
         [cli.printInfo "Processing link: %s" [cli.AString linkPath];
          cli.printSkip "%s already links to %s"
            [cli.AString linkPath; cli.AString (cli.Source cfg)]]
       else [])
    (cli.Links cfg).

(** A path that asks for the home directory. *)
Definition wants_home (path : string) : bool := String.prefix "~/" path.

(** A path as the commands work with it: absolute and in the form
    [Clean] gives. *)
Definition absolute_clean (path : string) : Prop :=
  filepath.IsAbs path = true ∧ filepath.Clean path = path.




(** ** A project directory to run the code on

    [/w] holds the source [CLAUDE.md] (content ["X"]), a regular file
    [AGENTS.md] (content ["Y"]), [other.md], a link [wrong.md] to
    [other.md], a correct link [ok.md], a link [dang.md] whose target is
    gone, a link [unread.md] that may not be read, and a directory
    [docs] with a file [a.md] in it. *)
Definition project : os.World :=
  {| os.files := list_to_map
       [ (["w"], os.Directory);
         (["w"; "CLAUDE.md"], os.RegularFile "X");
         (["w"; "AGENTS.md"], os.RegularFile "Y");
         (["w"; "other.md"], os.RegularFile "O");
         (["w"; "wrong.md"], os.SymbolicLink "other.md" true);
         (["w"; "ok.md"], os.SymbolicLink "CLAUDE.md" true);
         (["w"; "dang.md"], os.SymbolicLink "gone.md" true);
         (["w"; "unread.md"], os.SymbolicLink "CLAUDE.md" false);
         (["w"; "docs"], os.Directory);
         (["w"; "docs"; "a.md"], os.RegularFile "D") ];
     os.cwd := ["w"] |}.

(** * Facts about the path algebra *)

Module filepath_facts.
Import filepath.

Lemma fields_nonnil s : fields s ≠ [].
Proof.
  destruct s as [|c s]; simpl; [done|].
  destruct (Ascii.eqb c Separator); [done|].
  destruct (fields s); done.
Qed.

Lemma fields_app_sep a b : fields (a +:+ "/" +:+ b) = fields a ++ fields b.
Proof.
  induction a as [|c a IH]; simpl; [done|].
  rewrite IH. destruct (Ascii.eqb c Separator); [done|].
  pose proof (fields_nonnil a) as Hn.
  destruct (fields a); done.
Qed.

Lemma fields_no_sep e : no_sep e = true → fields e = [e].
Proof.
  induction e as [|c e IH]; simpl; [done|].
  intros [Hc He]%andb_true_iff. apply negb_true_iff in Hc. rewrite Hc.
  by rewrite IH.
Qed.

Lemma fields_all_no_sep s : Forall (λ e, no_sep e = true) (fields s).
Proof.
  induction s as [|c s IH]; simpl; [by repeat constructor|].
  destruct (Ascii.eqb c Separator) eqn:Hc; [by constructor|].
  destruct (fields s) as [|f fs]; [by repeat constructor; simpl; rewrite Hc|].
  inversion IH; subst. constructor; [|done]. simpl. by rewrite Hc.
Qed.

Lemma fields_join l :
  Forall (λ e, no_sep e = true) l → l ≠ [] → fields (join_sep l) = l.
Proof.
  induction l as [|x l IH]; [done|]. intros Hall _.
  inversion Hall as [|?? Hx Hl]; subst.
  destruct l as [|y l]; simpl.
  - by apply fields_no_sep.
  - change (fields (x +:+ "/" +:+ join_sep (y :: l)) = x :: y :: l).
    rewrite fields_app_sep, (fields_no_sep x Hx), IH; done.
Qed.

Lemma elements_names p : Forall is_name (elements p).
Proof.
  unfold elements. pose proof (fields_all_no_sep p) as H.
  induction H as [|e l He Hl IH]; [constructor|].
  rewrite filter_cons. case_decide; [|done]. by constructor.
Qed.

Lemma filter_names l : Forall is_name l → filter (λ e, e ≠ "") l = l.
Proof.
  induction 1 as [|e l [He _] Hl IH]; [done|].
  rewrite filter_cons. case_decide; [|done]. by rewrite IH.
Qed.

Lemma elements_join l : Forall is_name l → elements (join_sep l) = l.
Proof.
  intros Hl. destruct l as [|x l]; [done|].
  unfold elements. rewrite fields_join; [by apply filter_names|..|done].
  eapply Forall_impl; [exact Hl|]. by intros e [_ He].
Qed.

Lemma elements_app_sep a b :
  elements (a +:+ "/" +:+ b) = elements a ++ elements b.
Proof. unfold elements. by rewrite fields_app_sep, filter_app. Qed.

Lemma elements_rooted s : elements ("/" +:+ s) = elements s.
Proof. done. Qed.

Lemma is_name_dotdot : is_name "..".
Proof. by split. Qed.

Lemma cleaned_names r l : cleaned r l → Forall is_name l.
Proof.
  intros (n & ns & -> & Hns & _). apply Forall_app. split.
  - apply Forall_replicate, is_name_dotdot.
  - eapply Forall_impl; [exact Hns|]. by intros e [He _].
Qed.

Lemma cleaned_nil r : cleaned r [].
Proof. by exists 0, []. Qed.

Lemma cleaned_snoc_plain r l e : cleaned r l → plain e → cleaned r (l ++ [e]).
Proof.
  intros (n & ns & -> & Hns & Hr) He. exists n, (ns ++ [e]).
  rewrite app_assoc. split_and!; [done| |done].
  apply Forall_app. split; [done|by constructor].
Qed.

Lemma cleaned_prefix r l1 l2 : cleaned r (l1 ++ l2) → cleaned r l1.
Proof.
  intros (n & ns & Heq & Hns & Hr). revert l1 Heq Hr.
  induction n as [|n IH]; intros l1 Heq Hr; simpl in Heq.
  - subst ns. apply Forall_app in Hns as [H1 _]. by exists 0, l1.
  - destruct l1 as [|x l1]; [apply cleaned_nil|].
    simpl in Heq. injection Heq as -> Heq.
    destruct r; [by specialize (Hr eq_refl)|].
    destruct (IH l1 Heq) as (n' & ns' & -> & Hns' & _); [done|].
    by exists (S n'), ns'.
Qed.

(** In a cleaned list, what follows an element other than [".."] is plain. *)
Lemma cleaned_suffix_plain r c x l :
  cleaned r (c ++ x :: l) → x ≠ ".." → Forall plain (x :: l).
Proof.
  intros (n & ns & Heq & Hns & _) Hx. revert c Heq.
  induction n as [|n IH]; intros c Heq; simpl in Heq.
  - subst ns. by apply Forall_app in Hns as [_ H2].
  - destruct c as [|y c]; simpl in Heq; injection Heq as ? Heq; [done|].
    by apply (IH c).
Qed.

(** A [".."] in a cleaned list is preceded by [".."] elements only. *)
Lemma cleaned_before_dotdot r l1 l2 :
  cleaned r (l1 ++ ".." :: l2) → r = false ∧ l1 = replicate (length l1) "..".
Proof.
  intros (n & ns & Heq & Hns & Hr). revert l1 Heq Hr.
  induction n as [|n IH]; intros l1 Heq Hr; simpl in Heq.
  - subst ns. apply Forall_app in Hns as [_ H2].
    inversion H2 as [|?? (_ & _ & Hne) _]; subst. done.
  - destruct r; [by specialize (Hr eq_refl)|]. split; [done|].
    destruct l1 as [|x l1]; [done|]. simpl in Heq. injection Heq as -> Heq.
    simpl. f_equal. by apply IH.
Qed.

Lemma clean_elems_app r out xs ys :
  clean_elems r out (xs ++ ys) = clean_elems r (rev (clean_elems r out xs)) ys.
Proof.
  revert out. induction xs as [|e xs IH]; intros out; simpl.
  - by rewrite rev_involutive.
  - repeat case_decide; try done. destruct out as [|o out]; [by destruct r|].
    by case_decide.
Qed.

Lemma clean_elems_cleaned r out es :
  Forall is_name es → cleaned r (rev out) → cleaned r (clean_elems r out es).
Proof.
  intros Hes. revert out. induction Hes as [|e es He Hes IH]; intros out Hout; simpl.
  { done. }
  case_decide as Hdot; [by apply IH|].
  case_decide as Hdd; [|apply IH; simpl; apply cleaned_snoc_plain; done].
  subst e. destruct out as [|o out].
  - destruct r; apply IH; [apply cleaned_nil|]. by exists 1, [].
  - case_decide as Ho.
    + subst o. apply IH. simpl in *.
      destruct (cleaned_before_dotdot r (rev out) [] Hout) as [-> Hrep].
      exists (S (S (length (rev out)))), [].
      split_and!; [|done|done].
      rewrite app_nil_r. generalize dependent (rev out). intros l _ ->.
      generalize (length l). intros n. clear.
      induction n as [|n IHn]; [done|]. simpl. by rewrite IHn.
    + apply IH. simpl in Hout. by apply cleaned_prefix in Hout.
Qed.

(** A cleaned list is a fixed point of the element loop. *)
Lemma clean_elems_fixed r l1 l2 :
  cleaned r (l1 ++ l2) → clean_elems r (rev l1) l2 = l1 ++ l2.
Proof.
  revert l1. induction l2 as [|e l2 IH]; intros l1 Hc; simpl.
  { by rewrite rev_involutive, app_nil_r. }
  assert (Hname : is_name e ∧ e ≠ ".").
  { pose proof (cleaned_names _ _ Hc) as Hn.
    apply Forall_app in Hn as [_ Hn]. inversion Hn as [|?? He _]; subst.
    split; [done|]. intros ->.
    pose proof (cleaned_suffix_plain r l1 "." l2 Hc ltac:(done)) as HF.
    by inversion HF as [|?? (_ & Hne & _) _]. }
  destruct Hname as [_ Hdot]. case_decide; [done|].
  assert (Hnext : clean_elems r (e :: rev l1) l2 = l1 ++ e :: l2).
  { assert (Heq : l1 ++ e :: l2 = (l1 ++ [e]) ++ l2) by by rewrite <-app_assoc.
    rewrite Heq, <-(IH (l1 ++ [e])); [by rewrite rev_unit|by rewrite <-Heq]. }
  case_decide as Hdd; [|done]. subst e.
  destruct (cleaned_before_dotdot r l1 l2 Hc) as [-> Hrep].
  destruct (rev l1) as [|o out] eqn:Hrev; [done|].
  assert (o = "..") as ->.
  { assert (Ho : In o (rev l1)) by (rewrite Hrev; by left).
    apply in_rev, list_elem_of_In in Ho. rewrite Hrep in Ho.
    by apply elem_of_replicate_inv in Ho. }
  by case_decide.
Qed.

Lemma clean_elems_idem r es :
  Forall is_name es →
  clean_elems r [] (clean_elems r [] es) = clean_elems r [] es.
Proof.
  intros Hes. apply (clean_elems_fixed r []). simpl.
  apply clean_elems_cleaned; [done|apply cleaned_nil].
Qed.

(** [".."] elements back up over as many plain elements. *)
Lemma clean_elems_pop r s out t :
  Forall plain s →
  clean_elems r (s ++ out) (replicate (length s) ".." ++ t) = clean_elems r out t.
Proof.
  induction 1 as [|o s Ho Hs IH]; [done|]. destruct Ho as (_ & _ & Ho). simpl.
  by case_decide.
Qed.

Lemma IsAbs_app a b : a ≠ "" → IsAbs (a +:+ b) = IsAbs a.
Proof. by destruct a. Qed.

Lemma IsAbs_join_names e l : is_name e → IsAbs (join_sep (e :: l)) = false.
Proof.
  intros [Hne Hsep]. destruct e as [|c e]; [done|].
  simpl in Hsep. apply andb_true_iff in Hsep as [Hc _].
  apply negb_true_iff in Hc. by destruct l.
Qed.

Lemma join_names_nonempty e l : is_name e → join_sep (e :: l) ≠ "".
Proof. intros [Hne _]. destruct e; [done|]. by destruct l. Qed.

Lemma render_nonempty r l : Forall is_name l → render r l ≠ "".
Proof.
  intros Hl. destruct r; [done|]. destruct Hl; [done|].
  by apply join_names_nonempty.
Qed.

Lemma IsAbs_render r l : Forall is_name l → IsAbs (render r l) = r.
Proof.
  intros Hl. destruct r; [done|]. destruct Hl; [done|].
  by apply IsAbs_join_names.
Qed.

Lemma elems_render r l : cleaned r l → elems (render r l) = l.
Proof.
  intros Hc. pose proof (cleaned_names _ _ Hc) as Hn.
  unfold elems. rewrite (IsAbs_render r l Hn).
  assert (Hfix : clean_elems r [] l = l) by by apply (clean_elems_fixed r []).
  destruct r; simpl.
  - change (String "/" (join_sep l)) with ("/" +:+ join_sep l).
    by rewrite elements_rooted, elements_join.
  - destruct l as [|e l]; [done|]. by rewrite elements_join.
Qed.

Lemma elems_cleaned p : cleaned (IsAbs p) (elems p).
Proof.
  apply clean_elems_cleaned; [apply elements_names|apply cleaned_nil].
Qed.

Lemma elems_names p : Forall is_name (elems p).
Proof. eapply cleaned_names, elems_cleaned. Qed.

Lemma IsAbs_Clean p : IsAbs (Clean p) = IsAbs p.
Proof. apply IsAbs_render, elems_names. Qed.

Lemma elems_Clean p : elems (Clean p) = elems p.
Proof. apply elems_render, elems_cleaned. Qed.

Lemma Clean_idem p : Clean (Clean p) = Clean p.
Proof. unfold Clean at 1. by rewrite IsAbs_Clean, elems_Clean. Qed.

Lemma Clean_nonempty p : Clean p ≠ "".
Proof. apply render_nonempty, elems_names. Qed.

(** Two paths with the same cleaned elements and rootedness clean alike. *)
Lemma Clean_eq a b : IsAbs a = IsAbs b → elems a = elems b → Clean a = Clean b.
Proof. unfold Clean. by intros -> ->. Qed.

Lemma elems_app_sep a b :
  a ≠ "" →
  elems (a +:+ "/" +:+ b) = clean_elems (IsAbs a) (rev (elems a)) (elements b).
Proof.
  intros Ha. unfold elems. rewrite IsAbs_app by done.
  by rewrite elements_app_sep, clean_elems_app.
Qed.

Lemma strip_common_spec b t b' t' :
  strip_common b t = (b', t') → ∃ c, b = c ++ b' ∧ t = c ++ t'.
Proof.
  revert t. induction b as [|x b IH]; intros t Heq; simpl in Heq.
  { injection Heq as <- <-. by exists []. }
  destruct t as [|y t]; [injection Heq as <- <-; by exists []|].
  case_decide as Hxy; [|injection Heq as <- <-; by exists []].
  subst y. destruct (IH t Heq) as (c & -> & ->). by exists (x :: c).
Qed.

(** What [Rel] returns is never rooted. *)
Lemma Rel_not_abs basepath targpath rel :
  Rel basepath targpath = Ok rel → IsAbs rel = false.
Proof.
  unfold Rel. case_decide; [by intros [= <-]|].
  destruct (negb _); [done|].
  destruct (strip_common _ _) as [b t] eqn:Hs. case_decide as Hhd; [done|].
  intros [= <-]. apply strip_common_spec in Hs as (c & Hb & Ht).
  destruct b as [|x b]; simpl.
  - destruct t as [|y t]; [done|]. apply IsAbs_join_names.
    pose proof (elems_names (Clean targpath)) as Hn. rewrite Ht in Hn.
    apply Forall_app in Hn as [_ Hn]. by inversion Hn.
  - apply (IsAbs_join_names ".."), is_name_dotdot.
Qed.

(** The contract of [Rel]: joined to the base, its result is lexically
    the target. *)
Lemma Rel_lexical basepath targpath rel :
  Rel basepath targpath = Ok rel →
  Clean (Clean basepath +:+ "/" +:+ rel) = Clean targpath.
Proof.
  unfold Rel. pose proof (Clean_nonempty basepath) as Hne.
  case_decide as Heq.
  - intros [= <-]. rewrite <-(Clean_idem targpath), Heq. apply Clean_eq.
    + by rewrite IsAbs_app, IsAbs_Clean.
    + rewrite elems_app_sep by done. simpl.
      by rewrite rev_involutive.
  - destruct (Bool.eqb _ _) eqn:Habs; [|done]. simpl.
    apply Bool.eqb_prop in Habs. rewrite !IsAbs_Clean in Habs.
    destruct (strip_common _ _) as [b t] eqn:Hs. case_decide as Hhd; [done|].
    intros [= <-]. apply strip_common_spec in Hs as (c & Hb & Ht).
    rewrite elems_Clean in Hb, Ht.
    rewrite <-(Clean_idem targpath). apply Clean_eq.
    { by rewrite IsAbs_app, !IsAbs_Clean. }
    rewrite elems_app_sep, !elems_Clean, IsAbs_Clean by done.
    pose proof (elems_cleaned basepath) as Hcb.
    pose proof (elems_cleaned targpath) as Hct.
    rewrite Hb in Hcb. rewrite Ht, <-Habs in Hct.
    assert (Hplain : Forall plain b).
    { destruct b as [|x b]; [constructor|].
      apply (cleaned_suffix_plain _ c x b Hcb). intros ->. by apply Hhd. }
    assert (Hnames : Forall is_name (replicate (length b) ".." ++ t)).
    { apply Forall_app. split; [apply Forall_replicate, is_name_dotdot|].
      apply cleaned_names, Forall_app in Hct. tauto. }
    rewrite elements_join, Hb, rev_app_distr by done.
    rewrite <-(length_rev b).
    rewrite clean_elems_pop by by apply Forall_rev.
    rewrite clean_elems_fixed by done. done.
Qed.

Lemma Dir_clean path : Clean (Dir path) = Dir path.
Proof. apply Clean_idem. Qed.

Lemma Dir_nonempty path : Dir path ≠ "".
Proof. apply Clean_nonempty. Qed.

Lemma append_assoc (a b c : string) : (a +:+ b) +:+ c = a +:+ b +:+ c.
Proof.
  induction a as [|x a IH]; [done|].
  change (String x ((a +:+ b) +:+ c) = String x (a +:+ b +:+ c)).
  by rewrite IH.
Qed.

Lemma join_fields s : join_sep (fields s) = s.
Proof.
  induction s as [|c s IH]; [done|]. simpl.
  pose proof (fields_nonnil s) as Hn.
  destruct (Ascii.eqb c Separator) eqn:Hc.
  - apply Ascii.eqb_eq in Hc as ->.
    destruct (fields s) as [|f fs]; [done|].
    change (join_sep ("" :: f :: fs)) with ("/" +:+ join_sep (f :: fs)).
    by rewrite IH.
  - destruct (fields s) as [|f fs]; [done|].
    rewrite <-IH. by destruct fs.
Qed.

(** The directory of [a/b], for a single element [b]. *)
Lemma Dir_app_name a b :
  no_sep b = true → Dir (a +:+ "/" +:+ b) = Clean (a +:+ "/").
Proof.
  intros Hb. unfold Dir.
  rewrite fields_app_sep, (fields_no_sep b Hb), removelast_last.
  change (fields a ++ [""]) with (fields a ++ fields "").
  by rewrite <-fields_app_sep, join_fields.
Qed.

Lemma IsAbs_app_sep a b : IsAbs (a +:+ "/" +:+ b) = IsAbs (a +:+ "/").
Proof. by destruct a. Qed.

Lemma elems_below a b :
  elems (a +:+ "/" +:+ b)
  = clean_elems (IsAbs (a +:+ "/")) (rev (elems (a +:+ "/"))) (elements b).
Proof.
  unfold elems. rewrite IsAbs_app_sep, elements_app_sep, clean_elems_app.
  change (a +:+ "/") with (a +:+ "/" +:+ "").
  by rewrite elements_app_sep, app_nil_r.
Qed.

Lemma strip_common_app c b t : strip_common (c ++ b) (c ++ t) = strip_common b t.
Proof. induction c as [|x c IH]; [done|]. simpl. by case_decide. Qed.

(** [Rel] computed from the cleaned elements of its two arguments. *)
Lemma Rel_elems basepath targpath c b t :
  IsAbs basepath = IsAbs targpath →
  elems basepath = c ++ b → elems targpath = c ++ t →
  strip_common b t = (b, t) → b ≠ t → head b ≠ Some ".." →
  Rel basepath targpath = Ok (join_sep (replicate (length b) ".." ++ t)).
Proof.
  intros Habs Hb Ht Hs Hne Hhd. unfold Rel.
  case_decide as Heq.
  { apply (f_equal elems) in Heq. rewrite !elems_Clean, Hb, Ht in Heq.
    by apply app_inv_head in Heq. }
  rewrite !IsAbs_Clean, Habs, Bool.eqb_reflx. simpl.
  rewrite !elems_Clean, Hb, Ht, strip_common_app, Hs. by case_decide.
Qed.

End filepath_facts.

(** * Facts about the file tree *)

Module os_facts.
Import os.

Lemma walk_nil b fs f cur : walk b fs f cur [] = inr cur.
Proof. by destruct b. Qed.

Lemma walk_cons b fs f cur n rest :
  walk b fs f cur (n :: rest) =
  if decide (n = ".") then walk b fs f cur rest
  else if decide (n = "..") then walk b fs f (removelast cur) rest
  else
    match fs !! (cur ++ [n]) with
    | None => if is_nil rest then inr (cur ++ [n]) else inl ENOENT
    | Some Directory => walk b fs f (cur ++ [n]) rest
    | Some (SymbolicLink t r) =>
        if negb f && is_nil rest then inr (cur ++ [n])
        else if negb r then inl EACCES
        else if decide (t = "") then inl ENOENT
        else
          match b with
          | O => inl ELOOP
          | S b' =>
              walk b' fs f (if filepath.IsAbs t then [] else cur)
                (filepath.elements t ++ rest)
          end
    | Some _ => if is_nil rest then inr (cur ++ [n]) else inl ENOTDIR
    end.
Proof. by destruct b. Qed.

(** Resolution without following the last name only grows with the
    tree: nodes added elsewhere, or at the place resolved to, do not
    change where a path leads. *)
Lemma walk_mono (b : nat) (fs fs' : gmap key inode) cur names k :
  fs ⊆ fs' →
  walk b fs false cur names = inr k → walk b fs' false cur names = inr k.
Proof.
  intros Hsub. revert cur names.
  induction b as [|b IHb]; intros cur names; revert cur.
  all: induction names as [|n rest IH]; intros cur; [by rewrite !walk_nil|].
  all: rewrite !walk_cons.
  all: case_decide; [by apply IH|].
  all: case_decide; [by apply IH|].
  all: destruct (fs !! (cur ++ [n])) as [i|] eqn:Hi.
  all: try rewrite (lookup_weaken _ _ _ _ Hi Hsub).
  all: try (destruct rest; [|done]; simpl; intros [= <-];
            destruct (fs' !! (cur ++ [n])) as [[]|]; by rewrite ?walk_nil).
  all: destruct i as [c| |t r|]; try done; try by apply IH.
  all: destruct (negb false && is_nil rest); [done|].
  all: destruct (negb r); [done|].
  all: case_decide; [done|]; try done.
  by apply IHb.
Qed.

Lemma inode_at_mono (w w' : World) k i :
  files w ⊆ files w' → inode_at w k = Some i → inode_at w' k = Some i.
Proof.
  intros Hsub. destruct k; [done|]. simpl. intros Hi.
  by apply (lookup_weaken _ _ _ _ Hi Hsub).
Qed.

Lemma namei_mono (w w' : World) name k :
  files w ⊆ files w' → cwd w' = cwd w →
  namei w false name = inr k → namei w' false name = inr k.
Proof.
  intros Hsub Hcwd. unfold namei. case_decide; [done|].
  destruct (filepath.IsAbs name); [apply walk_mono; exact Hsub|].
  rewrite Hcwd. destruct (inode_at w (cwd w)) as [i|] eqn:Hi; [|done].
  rewrite (inode_at_mono w w' _ _ Hsub Hi).
  destruct i; [done| |done|done]. apply walk_mono; exact Hsub.
Qed.

Lemma Lstat_entry name w :
  Lstat name w =
  match entry_at name w with
  | inl e => Err (PathError "lstat" name e)
  | inr i => Ok {| Mode := mode_of i |}
  end.
Proof.
  unfold Lstat, stat_with, entry_at.
  destruct (namei w false name); [done|]. by destruct (inode_at w _).
Qed.

Lemma Readlink_entry name w :
  Readlink name w =
  match entry_at name w with
  | inl e => Err (PathError "readlink" name e)
  | inr (SymbolicLink t r) =>
      if r then Ok t else Err (PathError "readlink" name EACCES)
  | inr _ => Err (PathError "readlink" name EINVAL)
  end.
Proof.
  unfold Readlink, entry_at.
  destruct (namei w false name); [done|]. by destruct (inode_at w _) as [[]|].
Qed.

Lemma mode_symlink i :
  (Z.land (mode_of i) ModeSymlink =? 0)%Z = negb (is_symlink i).
Proof. by destruct i as [| |? []|]. Qed.

Lemma mode_regular i : IsRegular (mode_of i) = is_regular i.
Proof. by destruct i as [| |? []|]. Qed.


Lemma inode_at_None w k : inode_at w k = None → k ≠ [] ∧ files w !! k = None.
Proof. by destruct k. Qed.

Lemma inode_at_nonroot w k : k ≠ [] → inode_at w k = files w !! k.
Proof. by destruct k. Qed.

(** [Symlink]: on success a fresh node is added at the place the new
    name resolves to; on failure nothing changes. *)
Lemma Symlink_ok oldname newname w w' :
  Symlink oldname newname w = (None, w') →
  ∃ k, namei w false newname = inr k ∧ k ≠ [] ∧ files w !! k = None
       ∧ w' = set_files w (<[k := SymbolicLink oldname true]> (files w)).
Proof.
  unfold Symlink. case_decide; [done|].
  destruct (namei w false newname) as [e|k] eqn:Hk; [done|].
  destruct (inode_at w k) eqn:Hi; [done|]. intros [= <-].
  apply inode_at_None in Hi as [??]. by exists k.
Qed.

Lemma Symlink_err oldname newname w e w' :
  Symlink oldname newname w = (Some e, w') → w' = w.
Proof.
  unfold Symlink. case_decide; [by intros [= _ <-]|].
  destruct (namei w false newname); [by intros [= _ <-]|].
  destruct (inode_at w _); [by intros [= _ <-]|done].
Qed.

Lemma Symlink_grows oldname newname w r w' :
  Symlink oldname newname w = (r, w') → files w ⊆ files w' ∧ cwd w' = cwd w.
Proof.
  destruct r as [e|]; [by intros ->%Symlink_err|].
  intros (k & _ & _ & Hk & ->)%Symlink_ok. split; [|done].
  by apply insert_subseteq.
Qed.

(** After a successful [Symlink] the new name is a readable link with
    the given target. *)
Lemma Symlink_entry oldname newname w w' :
  Symlink oldname newname w = (None, w') →
  entry_at newname w' = inr (SymbolicLink oldname true).
Proof.
  intros H. pose proof (Symlink_grows _ _ _ _ _ H) as [Hsub Hcwd].
  apply Symlink_ok in H as (k & Hk & Hne & Hnone & ->).
  unfold entry_at. rewrite (namei_mono w _ newname k Hsub Hcwd Hk).
  rewrite inode_at_nonroot by done. simpl. by rewrite lookup_insert_eq.
Qed.

Lemma Mkdir_grows name w r w' :
  Mkdir name w = (r, w') → files w ⊆ files w' ∧ cwd w' = cwd w.
Proof.
  unfold Mkdir. destruct (namei w false name) as [e|k]; [by intros [= _ <-]|].
  destruct (inode_at w k) eqn:Hi; [by intros [= _ <-]|]. intros [= _ <-].
  apply inode_at_None in Hi as [??]. split; [|done]. by apply insert_subseteq.
Qed.

Lemma mkdir_all_grows rooted res w r w' :
  mkdir_all rooted res w = (r, w') → files w ⊆ files w' ∧ cwd w' = cwd w.
Proof.
  revert w r w'. induction res as [|e res IH]; intros w r w'; simpl.
  - destruct (Stat _ w) as [dir|]; [destruct (IsDir _); by intros [= _ <-]|].
    destruct (Mkdir _ w) as [[err|] w2] eqn:Hm;
      apply Mkdir_grows in Hm; [|by intros [= _ <-]].
    destruct (Lstat _ w2) as [dir|]; [destruct (IsDir _)|]; by intros [= _ <-].
  - destruct (Stat _ w) as [dir|]; [destruct (IsDir _); by intros [= _ <-]|].
    assert (Hpar : ∃ perr w1,
      (if is_nil res then (None, w) else mkdir_all rooted res w) = (perr, w1)
      ∧ files w ⊆ files w1 ∧ cwd w1 = cwd w).
    { destruct res as [|e' res']; simpl.
      - by exists None, w.
      - destruct (mkdir_all rooted (e' :: res') w) as [perr w1] eqn:Hp.
        exists perr, w1. split; [done|]. by apply (IH w perr w1). }
    destruct Hpar as (perr & w1 & -> & Hsub1 & Hcwd1).
    destruct perr as [err|]; [by intros [= _ <-]|].
    destruct (Mkdir _ w1) as [[err|] w2] eqn:Hm;
      apply Mkdir_grows in Hm as [Hsub2 Hcwd2].
    2: { intros [= _ <-]; split; [by etrans|congruence]. }
    destruct (Lstat _ w2) as [dir|]; [destruct (IsDir _)|].
    all: intros [= _ <-]; split; [by etrans|congruence].
Qed.

Lemma MkdirAll_grows path w r w' :
  MkdirAll path w = (r, w') → files w ⊆ files w' ∧ cwd w' = cwd w.
Proof. apply mkdir_all_grows. Qed.

(** [Remove]: on success exactly the named node is gone; on failure
    nothing changes. *)
Lemma Remove_ok name w w' :
  Remove name w = (None, w') →
  ∃ k i, namei w false name = inr k ∧ k ≠ [] ∧ files w !! k = Some i
         ∧ w' = set_files w (delete k (files w)).
Proof.
  unfold Remove. destruct (namei w false name) as [e|k] eqn:Hk; [done|].
  destruct k as [|n k]; [done|]. simpl.
  destruct (files w !! (n :: k)) as [i|] eqn:Hi; [|done].
  destruct i.
  2: { destruct (endsWithDot name); [done|].
       destruct (has_children w (n :: k)); [done|].
       intros [= <-]. by exists (n :: k), Directory. }
  all: intros [= <-]; by eexists (n :: k), _.
Qed.

Lemma Remove_err name w e w' : Remove name w = (Some e, w') → w' = w.
Proof.
  unfold Remove. destruct (namei w false name) as [e'|k]; [by intros [= _ <-]|].
  destruct k as [|n k]; [by intros [= _ <-]|]. simpl.
  destruct (files w !! (n :: k)) as [[]|]; try by intros [= _ <-].
  destruct (endsWithDot name); [by intros [= _ <-]|].
  destruct (has_children w (n :: k)); by intros [= _ <-].
Qed.

(** What [Remove] removes is what the name names. *)
Lemma Remove_ok_entry name w w' :
  Remove name w = (None, w') →
  ∃ k i, namei w false name = inr k ∧ entry_at name w = inr i
         ∧ files w !! k = Some i ∧ w' = set_files w (delete k (files w)).
Proof.
  intros (k & i & Hk & Hne & Hi & ->)%Remove_ok. exists k, i.
  unfold entry_at. rewrite Hk, inode_at_nonroot, Hi by done. done.
Qed.

Lemma keeps_files_refl w : keeps_files w w.
Proof. by intros k i. Qed.

Lemma keeps_files_trans w1 w2 w3 :
  keeps_files w1 w2 → keeps_files w2 w3 → keeps_files w1 w3.
Proof. intros H12 H23 k i Hk Hi. apply H23; [|done]. by apply H12. Qed.

Lemma grows_keeps w w' : files w ⊆ files w' → keeps_files w w'.
Proof. intros Hsub k i Hk _. by apply (lookup_weaken _ _ _ _ Hk Hsub). Qed.

(** Removing a symbolic link keeps every other kind of node. *)
Lemma Remove_link_keeps name w w' i :
  entry_at name w = inr i → is_symlink i = true →
  Remove name w = (None, w') → keeps_files w w'.
Proof.
  intros He Hi (k & i' & Hk & He' & Hfk & ->)%Remove_ok_entry.
  rewrite He in He'. injection He' as <-.
  intros k' j Hk' Hj. simpl. rewrite lookup_delete_ne; [done|].
  intros <-. rewrite Hfk in Hk'. injection Hk' as <-. congruence.
Qed.

(** When the name does not resolve to a node, [Remove] fails. *)
Lemma Remove_no_entry name w e :
  entry_at name w = inl e → ∃ err, Remove name w = (Some err, w).
Proof.
  unfold entry_at, Remove.
  destruct (namei w false name) as [e'|k]; [by eexists|].
  destruct k as [|n k]; [done|]. simpl.
  destruct (files w !! (n :: k)); [done|]. by eexists.
Qed.

(** [RemoveAll] of a name that resolves to a node below the root: the
    node and all below it are gone, nothing else changes. *)
Lemma RemoveAll_ok path w w' i :
  entry_at path w = inr i → RemoveAll path w = (None, w') →
  ∃ k, namei w false path = inr k ∧ k ≠ []
       ∧ w' = set_files w
                (filter (λ kv : key * inode, has_prefix k kv.1 = false) (files w)).
Proof.
  unfold entry_at, RemoveAll. case_decide as Hp.
  { subst path. unfold namei. by case_decide. }
  destruct (endsWithDot path); [done|].
  destruct (namei w false path) as [e|k]; [done|].
  destruct (inode_at w k); [|done]. intros _.
  destruct k as [|n k]; [done|]. intros [= <-]. by exists (n :: k).
Qed.

End os_facts.

(** * Facts about the manager *)

Module symlink_facts.
Import os symlink os_facts filepath_facts.

(** [CheckLink] classifies by what the link path names and by the
    stored target alone. *)
Lemma CheckLink_status m linkPath source w :
  Status (CheckLink m linkPath source w)
  = classify linkPath source (entry_at linkPath w).
Proof.
  unfold CheckLink. rewrite Lstat_entry, Readlink_entry.
  destruct (entry_at linkPath w) as [e|i]; [by destruct e|].
  simpl. rewrite mode_symlink.
  destruct i as [c| |t r|]; simpl; [done|done| |done].
  destruct r; simpl; [|done]. unfold names_source.
  repeat case_decide; done.
Qed.

Lemma CheckLink_target m linkPath source w t :
  entry_at linkPath w = inr (SymbolicLink t true) →
  Target (CheckLink m linkPath source w) = t.
Proof.
  intros He. unfold CheckLink. rewrite Lstat_entry, Readlink_entry, He.
  simpl. by case_decide.
Qed.

(** A link whose target is what [Rel] computes names the source. *)
Lemma Rel_names_source linkPath source rel :
  filepath.Rel (filepath.Dir linkPath) source = Ok rel →
  names_source linkPath rel source.
Proof.
  intros Hrel. unfold names_source, filepath.Join.
  rewrite (Rel_not_abs _ _ _ Hrel). simpl.
  case_decide as Hd; [by apply Dir_nonempty in Hd|].
  rewrite Clean_idem, <-(Dir_clean linkPath). by apply Rel_lexical.
Qed.

Lemma CreateLink_dry m linkPath targetPath w :
  dryRun m = true → CreateLink m linkPath targetPath w = (None, w).
Proof. unfold CreateLink. by intros ->. Qed.

Lemma CreateLink_grows m linkPath targetPath w r w' :
  CreateLink m linkPath targetPath w = (r, w') →
  files w ⊆ files w' ∧ cwd w' = cwd w.
Proof.
  unfold CreateLink. destruct (dryRun m); [by intros [= _ <-]|].
  destruct (MkdirAll _ w) as [[err|] w1] eqn:Hm;
    apply MkdirAll_grows in Hm as [Hs1 Hc1]; [by intros [= _ <-]|].
  destruct (filepath.Rel _ _) as [rel|]; [|by intros [= _ <-]].
  destruct (Symlink rel linkPath w1) as [[err|] w2] eqn:Hs;
    apply Symlink_grows in Hs as [Hs2 Hc2];
    intros [= _ <-]; (split; [by etrans|congruence]).
Qed.

(** A real [CreateLink] that succeeds leaves a readable link whose
    stored target is the relative path from the link's directory. *)
Lemma CreateLink_ok m linkPath targetPath w w' :
  dryRun m = false →
  CreateLink m linkPath targetPath w = (None, w') →
  ∃ rel, filepath.Rel (filepath.Dir linkPath) targetPath = Ok rel
         ∧ entry_at linkPath w' = inr (SymbolicLink rel true).
Proof.
  unfold CreateLink. intros ->.
  destruct (MkdirAll _ w) as [[err|] w1]; [done|].
  destruct (filepath.Rel _ _) as [rel|]; [|done].
  destruct (Symlink rel linkPath w1) as [[err|] w2] eqn:Hs; [done|].
  intros [= <-]. exists rel. split; [done|]. by apply Symlink_entry in Hs.
Qed.

Lemma CreateLink_ok_status m linkPath targetPath w w' :
  dryRun m = false →
  CreateLink m linkPath targetPath w = (None, w') →
  Status (CheckLink m linkPath targetPath w') = StatusOK.
Proof.
  intros Hdry (rel & Hrel & He)%CreateLink_ok; [|done].
  rewrite CheckLink_status, He. simpl.
  case_decide as Hn; [done|]. by apply Rel_names_source in Hrel.
Qed.

(** The steps of [FixLink], one equation per status. *)
Lemma FixLink_OK m l s w :
  Status (CheckLink m l s w) = StatusOK → FixLink m l s w = (Ok "skip", w).
Proof. unfold FixLink. by intros ->. Qed.

Lemma FixLink_Missing m l s w :
  Status (CheckLink m l s w) = StatusMissing →
  FixLink m l s w = then_create "create" (CreateLink m l s w).
Proof.
  unfold FixLink, then_create. intros ->.
  by destruct (CreateLink m l s w) as [[?|] ?].
Qed.

Lemma FixLink_Broken m l s w :
  Status (CheckLink m l s w) = StatusBroken →
  FixLink m l s w =
  match Remove l w with
  | (Some err, w1) =>
      (Err (Wrapf ("failed to remove broken symlink " +:+ l +:+ ": ") err), w1)
  | (None, w1) => then_create "fix broken" (CreateLink m l s w1)
  end.
Proof.
  unfold FixLink, then_create. intros ->.
  destruct (Remove l w) as [[?|] w1]; [done|].
  by destruct (CreateLink m l s w1) as [[?|] ?].
Qed.

Lemma FixLink_WrongTarget_force m l s w :
  Status (CheckLink m l s w) = StatusWrongTarget → force m = true →
  FixLink m l s w =
  match Remove l w with
  | (Some err, w1) =>
      (Err (Wrapf ("failed to remove wrong symlink " +:+ l +:+ ": ") err), w1)
  | (None, w1) => then_create "fix" (CreateLink m l s w1)
  end.
Proof.
  unfold FixLink, then_create. intros -> ->. simpl.
  destruct (Remove l w) as [[?|] w1]; [done|].
  by destruct (CreateLink m l s w1) as [[?|] ?].
Qed.

Lemma FixLink_NotSymlink_force m l s w :
  Status (CheckLink m l s w) = StatusNotSymlink → force m = true →
  FixLink m l s w =
  match RemoveAll l w with
  | (Some err, w1) =>
      (Err (Wrapf ("failed to remove existing file " +:+ l +:+ ": ") err), w1)
  | (None, w1) => then_create "replace" (CreateLink m l s w1)
  end.
Proof.
  unfold FixLink, then_create. intros -> ->. simpl.
  destruct (RemoveAll l w) as [[?|] w1]; [done|].
  by destruct (CreateLink m l s w1) as [[?|] ?].
Qed.

Lemma FixLink_conflict m l s w :
  force m = false →
  FixLink m l s w =
  match Status (CheckLink m l s w) with
  | StatusWrongTarget =>
      (Err (Errorf ("symlink " +:+ l +:+ " points to wrong target "
                    +:+ Target (CheckLink m l s w) +:+ " (expected " +:+ s
                    +:+ "), use --force to fix")), w)
  | StatusNotSymlink =>
      (Err (Errorf ("file " +:+ l
                    +:+ " exists and is not a symlink, use --force to replace")), w)
  | _ => FixLink m l s w
  end.
Proof.
  intros Hf. destruct (Status (CheckLink m l s w)) eqn:Hst; try done.
  all: unfold FixLink; by rewrite Hst, Hf.
Qed.

Lemma then_create_ok a r b w' :
  then_create a r = (Ok b, w') → b = a ∧ r = (None, w').
Proof. destruct r as [[?|] ?]; simpl; [done|]. by intros [= <- <-]. Qed.

(** What the link path names, from the classification. *)
Lemma classify_link linkPath source e :
  classify linkPath source e = StatusOK
  ∨ classify linkPath source e = StatusWrongTarget →
  ∃ t, e = inr (SymbolicLink t true).
Proof.
  destruct e as [[]|[c| |t []|]]; simpl; intros [H|H]; try done; by eexists.
Qed.

Lemma classify_broken linkPath source e :
  classify linkPath source e = StatusBroken →
  (∃ err, e = inl err) ∨ (∃ t, e = inr (SymbolicLink t false)).
Proof.
  destruct e as [err|[c| |t []|]]; simpl; intros H; try done.
  - left. by eexists.
  - by case_decide.
  - right. by eexists.
Qed.

Lemma classify_not_symlink linkPath source e :
  classify linkPath source e = StatusNotSymlink →
  ∃ i, e = inr i ∧ is_symlink i = false.
Proof.
  destruct e as [[]|[c| |t []|]]; simpl; intros H; try done; try by eexists.
  by case_decide.
Qed.

(** In the [Broken] row, a [Remove] that succeeds removed a link that
    cannot be read. *)
Lemma Broken_remove m l s w w1 :
  Status (CheckLink m l s w) = StatusBroken →
  Remove l w = (None, w1) →
  ∃ k t, namei w false l = inr k ∧ files w !! k = Some (SymbolicLink t false)
         ∧ entry_at l w = inr (SymbolicLink t false)
         ∧ w1 = set_files w (delete k (files w)).
Proof.
  rewrite CheckLink_status. intros Hst Hrm.
  destruct (Remove_ok_entry _ _ _ Hrm) as (k & i & Hk & He & Hfk & ->).
  rewrite He in Hst. apply classify_broken in Hst as [[err [=]]|[t [= ->]]].
  by exists k, t.
Qed.

(** Without force, [FixLink] keeps every node that is not a link. *)
Lemma FixLink_keeps m l s w :
  force m = false → keeps_files w (FixLink m l s w).2.
Proof.
  intros Hf. destruct (Status (CheckLink m l s w)) eqn:Hst.
  - rewrite (FixLink_OK _ _ _ _ Hst). apply keeps_files_refl.
  - rewrite (FixLink_Missing _ _ _ _ Hst).
    destruct (CreateLink m l s w) as [r w1] eqn:Hc.
    apply CreateLink_grows in Hc as [Hsub _].
    destruct r; by apply grows_keeps.
  - rewrite (FixLink_conflict _ _ _ _ Hf), Hst. apply keeps_files_refl.
  - rewrite (FixLink_conflict _ _ _ _ Hf), Hst. apply keeps_files_refl.
  - rewrite (FixLink_Broken _ _ _ _ Hst).
    destruct (Remove l w) as [[err|] w1] eqn:Hrm.
    { apply Remove_err in Hrm as ->. apply keeps_files_refl. }
    destruct (Broken_remove _ _ _ _ _ Hst Hrm) as (k & t & _ & _ & He & _).
    apply (Remove_link_keeps _ _ _ _ He eq_refl) in Hrm.
    destruct (CreateLink m l s w1) as [r w2] eqn:Hc.
    apply CreateLink_grows in Hc as [Hsub _].
    apply (keeps_files_trans _ w1); [done|].
    destruct r; by apply grows_keeps.
Qed.

(** [RemoveLink] keeps every node that is not a link, whatever the flags. *)
Lemma RemoveLink_keeps m l s w : keeps_files w (RemoveLink m l s w).2.
Proof.
  unfold RemoveLink. destruct (dryRun m); [apply keeps_files_refl|].
  case_decide as Hst; [|apply keeps_files_refl].
  rewrite CheckLink_status in Hst.
  destruct (classify_link l s _ (or_introl Hst)) as [t He].
  destruct (Remove l w) as [[err|] w1] eqn:Hrm.
  - apply Remove_err in Hrm as ->. apply keeps_files_refl.
  - by apply (Remove_link_keeps _ _ _ _ He eq_refl) in Hrm.
Qed.

(** A link that can be read is classified by its stored target alone. *)
Lemma CheckLink_readable m l s w t :
  Readlink l w = Ok t →
  Status (CheckLink m l s w)
  = if decide (names_source l t s) then StatusOK else StatusWrongTarget.
Proof.
  rewrite Readlink_entry, CheckLink_status.
  destruct (entry_at l w) as [e|[c| |t' []|]]; try done. by intros [= ->].
Qed.

(** [Broken] is the classification of a failing [lstat] (other than
    "does not exist") and of a failing [readlink], and of nothing else. *)
Lemma CheckLink_broken m l s w :
  Status (CheckLink m l s w) = StatusBroken ↔
  (∃ err, Lstat l w = Err err ∧ IsNotExist err = false)
  ∨ (∃ fi err, Lstat l w = Ok fi ∧ Readlink l w = Err err
               ∧ (Z.land (Mode fi) ModeSymlink =? 0)%Z = false).
Proof.
  rewrite CheckLink_status, Lstat_entry, Readlink_entry.
  destruct (entry_at l w) as [e|i]; simpl.
  - split.
    + intros H. left. eexists. split; [done|]. by destruct e.
    + intros [(err & [= <-] & Hne)|(fi & err & [=] & _)]. by destruct e.
  - split.
    + intros H. right. destruct i as [c| |t []|]; simpl in H; try done.
      * by case_decide.
      * by eexists _, _.
    + intros [(err & [=] & _)|(fi & err & [= <-] & Hr & Hm)].
      simpl in Hm. rewrite mode_symlink in Hm.
      destruct i as [c| |t []|]; try done.
Qed.

Lemma FixLink_Broken_ok m l s w a w' :
  Status (CheckLink m l s w) = StatusBroken →
  FixLink m l s w = (Ok a, w') →
  a = "fix broken"
  ∧ ∃ k t, namei w false l = inr k
           ∧ files w !! k = Some (SymbolicLink t false)
           ∧ CreateLink m l s (set_files w (delete k (files w))) = (None, w').
Proof.
  intros Hst. rewrite (FixLink_Broken _ _ _ _ Hst).
  destruct (Remove l w) as [[err|] w1] eqn:Hrm; [done|].
  intros [-> Hc]%then_create_ok. split; [done|].
  destruct (Broken_remove _ _ _ _ _ Hst Hrm) as (k & t & Hk & Hfk & _ & ->).
  by exists k, t.
Qed.

Lemma FixLink_WrongTarget_ok m l s w a w' :
  Status (CheckLink m l s w) = StatusWrongTarget →
  FixLink m l s w = (Ok a, w') →
  force m = true ∧ a = "fix"
  ∧ ∃ k t, namei w false l = inr k
           ∧ files w !! k = Some (SymbolicLink t true)
           ∧ CreateLink m l s (set_files w (delete k (files w))) = (None, w').
Proof.
  intros Hst. destruct (force m) eqn:Hf;
    [|by rewrite (FixLink_conflict _ _ _ _ Hf), Hst].
  rewrite (FixLink_WrongTarget_force _ _ _ _ Hst Hf).
  destruct (Remove l w) as [[err|] w1] eqn:Hrm; [done|].
  intros [-> Hc]%then_create_ok. split_and!; [done..|].
  destruct (Remove_ok_entry _ _ _ Hrm) as (k & i & Hk & He & Hfk & ->).
  rewrite CheckLink_status, He in Hst.
  destruct (classify_link l s _ (or_intror Hst)) as [t [= ->]]. by exists k, t.
Qed.

Lemma FixLink_NotSymlink_ok m l s w a w' :
  Status (CheckLink m l s w) = StatusNotSymlink →
  FixLink m l s w = (Ok a, w') →
  force m = true ∧ a = "replace"
  ∧ ∃ k i, namei w false l = inr k ∧ files w !! k = Some i
           ∧ is_symlink i = false
           ∧ CreateLink m l s
               (set_files w
                  (filter (λ kv : key * inode, has_prefix k kv.1 = false) (files w)))
             = (None, w').
Proof.
  intros Hst. destruct (force m) eqn:Hf;
    [|by rewrite (FixLink_conflict _ _ _ _ Hf), Hst].
  rewrite (FixLink_NotSymlink_force _ _ _ _ Hst Hf).
  destruct (RemoveAll l w) as [[err|] w1] eqn:Hrm; [done|].
  intros [-> Hc]%then_create_ok. split_and!; [done..|].
  rewrite CheckLink_status in Hst.
  apply classify_not_symlink in Hst as (i & He & Hi).
  destruct (RemoveAll_ok _ _ _ _ He Hrm) as (k & Hk & Hne & ->).
  exists k, i. split_and!; try done.
  unfold entry_at in He. rewrite Hk, inode_at_nonroot in He by done.
  by destruct (files w !! k) as [i'|]; [injection He as ->|].
Qed.

Lemma FixLink_Missing_ok m l s w a w' :
  Status (CheckLink m l s w) = StatusMissing →
  FixLink m l s w = (Ok a, w') →
  a = "create" ∧ CreateLink m l s w = (None, w').
Proof.
  intros Hst. rewrite (FixLink_Missing _ _ _ _ Hst). apply then_create_ok.
Qed.

End symlink_facts.

Import os symlink os_facts filepath_facts symlink_facts.

(** The path functions on the examples of the Go documentation and tests. *)
Example clean1 : filepath.Clean "/a//b/./c/../d/" = "/a/b/d".
Proof. reflexivity. Qed.
Example clean2 : filepath.Clean "../../a/../../b" = "../../../b".
Proof. reflexivity. Qed.
Example clean3 : filepath.Clean "/../a" = "/a" ∧ filepath.Clean "" = "." ∧ filepath.Clean "a/.." = ".".
Proof. repeat split; reflexivity. Qed.
Example dir1 : filepath.Dir "/a/b/c.md" = "/a/b" ∧ filepath.Dir "c.md" = "."
  ∧ filepath.Dir "/c.md" = "/" ∧ filepath.Dir "/a/b/" = "/a/b" ∧ filepath.Dir "" = ".".
Proof. repeat split; reflexivity. Qed.
Example rel1 : filepath.Rel "/a/b" "/a/b/c/d" = Ok "c/d"
  ∧ filepath.Rel "/a/b/c" "/a/c/d" = Ok "../../c/d"
  ∧ filepath.Rel "/a/b" "/" = Ok "../.."
  ∧ filepath.Rel "/" "/a/b/c/d" = Ok "a/b/c/d"
  ∧ filepath.Rel "a/b" "a/b/." = Ok "."
  ∧ filepath.Rel "../../a/b" "../../a/b/c/d" = Ok "c/d"
  ∧ is_err (filepath.Rel ".." "a") = true
  ∧ is_err (filepath.Rel "a" "/a") = true.
Proof. repeat split; reflexivity. Qed.
Example join1 : filepath.Join "/a/b" "../c" = "/a/c" ∧ filepath.Join "" "x" = "x"
  ∧ filepath.Join "." "x" = "x".
Proof. repeat split; reflexivity. Qed.


(** The manager on the project directory, row by row. *)
Example fix_rows :
  (FixLink (NewManager false false false) "/w/ok.md" "/w/CLAUDE.md" project).1 = Ok "skip"
  ∧ (FixLink (NewManager false false false) "/w/new/x.md" "/w/CLAUDE.md" project).1
    = Ok "create"
  ∧ (FixLink (NewManager false true false) "/w/wrong.md" "/w/CLAUDE.md" project).1
    = Ok "fix"
  ∧ (FixLink (NewManager false true false) "/w/AGENTS.md" "/w/CLAUDE.md" project).1
    = Ok "replace"
  ∧ (FixLink (NewManager false false false) "/w/unread.md" "/w/CLAUDE.md" project).1
    = Ok "fix broken"
  ∧ Readlink "/w/new/x.md"
      (FixLink (NewManager false false false) "/w/new/x.md" "/w/CLAUDE.md" project).2
    = Ok "../CLAUDE.md".
Proof. vm_compute. done. Qed.

(** A link path that runs through a linked directory: the kernel
    follows the link, the lexical check does not care. *)
Example through_linked_directory :
  let w := set_files project
             (<[ ["w"; "cfg"] := SymbolicLink "docs" true ]> (files project)) in
  let r := FixLink (NewManager false false false) "/w/cfg/AGENTS.md" "/w/CLAUDE.md" w in
  r.1 = Ok "create"
  ∧ files r.2 !! ["w"; "docs"; "AGENTS.md"] = Some (SymbolicLink "../CLAUDE.md" true)
  ∧ Status (CheckLink (NewManager false false false)
              "/w/cfg/AGENTS.md" "/w/CLAUDE.md" r.2) = StatusOK.
Proof. vm_compute. done. Qed.

(** * The claims *)

(** C3.  Safety without force: when the link is classified
    [WrongTarget] or [NotSymlink] and [force] is off, [FixLink] fails
    with the conflict error, which names the link path (and, for a wrong
    target, the stored and the expected target), and returns the world
    it was given: nothing was removed, created or modified. *)
Theorem C3_conflict_without_force m linkPath targetPath w :
  force m = false →
  (Status (CheckLink m linkPath targetPath w) = StatusWrongTarget →
   FixLink m linkPath targetPath w =
   (Err (Errorf ("symlink " +:+ linkPath +:+ " points to wrong target "
                 +:+ Target (CheckLink m linkPath targetPath w)
                 +:+ " (expected " +:+ targetPath +:+ "), use --force to fix")), w))
  ∧ (Status (CheckLink m linkPath targetPath w) = StatusNotSymlink →
     FixLink m linkPath targetPath w =
     (Err (Errorf ("file " +:+ linkPath
                   +:+ " exists and is not a symlink, use --force to replace")), w)).
Proof.
  intros Hf. split; intros Hst; rewrite (FixLink_conflict _ _ _ _ Hf), Hst; done.
Qed.

Lemma C3_witness :
  FixLink (NewManager false false false) "/w/wrong.md" "/w/CLAUDE.md" project
  = (Err (Errorf "symlink /w/wrong.md points to wrong target other.md (expected /w/CLAUDE.md), use --force to fix"),
     project)
  ∧ FixLink (NewManager false false false) "/w/AGENTS.md" "/w/CLAUDE.md" project
    = (Err (Errorf "file /w/AGENTS.md exists and is not a symlink, use --force to replace"),
       project).
Proof.
  split.
  - refine (eq_trans (proj1 (C3_conflict_without_force
      (NewManager false false false) "/w/wrong.md" "/w/CLAUDE.md" project eq_refl) _) _);
      vm_compute; reflexivity.
  - refine (eq_trans (proj2 (C3_conflict_without_force
      (NewManager false false false) "/w/AGENTS.md" "/w/CLAUDE.md" project eq_refl) _) _);
      vm_compute; reflexivity.
Defined.

(** C9.  Removal safety: [RemoveLink] removes nothing unless the link
    is classified [OK].  For every other classification ([WrongTarget],
    [NotSymlink], [Missing], and [Broken] too) it returns no error and
    the world it was given; so a world that differs after the call means
    the classification was [OK] and the run was a real one, and then the
    only change is the one [os.Remove] makes at the link path. *)
Theorem C9_remove_only_managed m linkPath expectedTarget w :
  (Status (CheckLink m linkPath expectedTarget w) ≠ StatusOK →
   RemoveLink m linkPath expectedTarget w = (None, w))
  ∧ ((RemoveLink m linkPath expectedTarget w).2 ≠ w →
     Status (CheckLink m linkPath expectedTarget w) = StatusOK ∧ dryRun m = false)
  ∧ (Status (CheckLink m linkPath expectedTarget w) = StatusOK →
     dryRun m = false →
     (RemoveLink m linkPath expectedTarget w).2 = (Remove linkPath w).2).
Proof.
  unfold RemoveLink. split_and!.
  - intros Hst. destruct (dryRun m); [done|]. by case_decide.
  - destruct (dryRun m); [done|]. by case_decide.
  - intros -> ->. simpl. by destruct (Remove linkPath w) as [[?|] ?].
Qed.

Lemma C9_witness :
  RemoveLink (NewManager false true false) "/w/wrong.md" "/w/CLAUDE.md" project
  = (None, project)
  ∧ RemoveLink (NewManager false true false) "/w/AGENTS.md" "/w/CLAUDE.md" project
    = (None, project)
  ∧ RemoveLink (NewManager false true false) "/w/absent.md" "/w/CLAUDE.md" project
    = (None, project).
Proof.
  split_and!;
    apply (proj1 (C9_remove_only_managed (NewManager false true false) _ _ project));
    vm_compute; discriminate.
Defined.

(** [ValidateSource], read off what the source path names. *)
Lemma ValidateSource_entry m sourcePath w :
  ValidateSource m sourcePath w =
  match entry_at sourcePath w with
  | inl e =>
      if bool_decide (e = ENOENT) then
        Some (Errorf ("source file " +:+ sourcePath +:+ " does not exist"))
      else
        Some (Wrapf ("failed to stat source file " +:+ sourcePath +:+ ": ")
                (PathError "lstat" sourcePath e))
  | inr i =>
      if is_symlink i && negb (force m) then
        Some (Errorf ("source file " +:+ sourcePath
                      +:+ " is a symlink (use --force to override)"))
      else if negb (is_regular i) && negb (is_symlink i) then
        Some (Errorf ("source file " +:+ sourcePath +:+ " is not a regular file"))
      else None
  end.
Proof.
  unfold ValidateSource. rewrite Lstat_entry.
  destruct (entry_at sourcePath w) as [e|i]; [by destruct e|].
  simpl. by rewrite mode_symlink, mode_regular, negb_involutive.
Qed.

(** C10.  [ValidateSource] returns an error if and only if [lstat] on
    the source path fails (the path does not exist, or any other
    failure), or the source is a symbolic link while [force] is off, or
    it is neither a regular file nor a symbolic link.  In particular,
    with [force] on every symbolic link is accepted, whatever it points
    to: nothing beyond the link itself is looked at. *)
Theorem C10_validate_source m sourcePath w :
  (ValidateSource m sourcePath w ≠ None ↔
     (∃ e, entry_at sourcePath w = inl e)
     ∨ (∃ i, entry_at sourcePath w = inr i
             ∧ ((is_symlink i = true ∧ force m = false)
                ∨ (is_regular i = false ∧ is_symlink i = false))))
  ∧ (∀ t r, entry_at sourcePath w = inr (SymbolicLink t r) →
            force m = true → ValidateSource m sourcePath w = None).
Proof.
  rewrite ValidateSource_entry. split.
  - destruct (entry_at sourcePath w) as [e|i].
    + split; [intros _; left; by exists e|intros _; by case_bool_decide].
    + split.
      * intros H. right. exists i. split; [done|].
        destruct (is_symlink i), (force m), (is_regular i); simpl in *; tauto.
      * intros [[e [=]]|(i' & [= <-] & [[-> ->]|[-> ->]])]; done.
  - intros t r -> Hf. simpl. by rewrite Hf.
Qed.

Lemma C10_witness :
  ValidateSource (NewManager false true false) "/w/dang.md" project = None.
Proof.
  apply (proj2 (C10_validate_source (NewManager false true false) "/w/dang.md" project)
           "gone.md" true); vm_compute; reflexivity.
Defined.

(** Whatever row of [FixLink] succeeds in a real run, the link is then
    classified [OK]. *)
Lemma FixLink_converges m linkPath targetPath w a w' :
  dryRun m = false →
  FixLink m linkPath targetPath w = (Ok a, w') →
  Status (CheckLink m linkPath targetPath w') = StatusOK.
Proof.
  intros Hdry. destruct (Status (CheckLink m linkPath targetPath w)) eqn:Hst.
  - rewrite (FixLink_OK _ _ _ _ Hst). by intros [= _ <-].
  - rewrite (FixLink_Missing _ _ _ _ Hst).
    intros [_ Hc]%then_create_ok. by apply CreateLink_ok_status in Hc.
  - destruct (force m) eqn:Hf.
    + rewrite (FixLink_WrongTarget_force _ _ _ _ Hst Hf).
      destruct (Remove linkPath w) as [[?|] w1]; [done|].
      intros [_ Hc]%then_create_ok. by apply CreateLink_ok_status in Hc.
    + by rewrite (FixLink_conflict _ _ _ _ Hf), Hst.
  - destruct (force m) eqn:Hf.
    + rewrite (FixLink_NotSymlink_force _ _ _ _ Hst Hf).
      destruct (RemoveAll linkPath w) as [[?|] w1]; [done|].
      intros [_ Hc]%then_create_ok. by apply CreateLink_ok_status in Hc.
    + by rewrite (FixLink_conflict _ _ _ _ Hf), Hst.
  - rewrite (FixLink_Broken _ _ _ _ Hst).
    destruct (Remove linkPath w) as [[?|] w1]; [done|].
    intros [_ Hc]%then_create_ok. by apply CreateLink_ok_status in Hc.
Qed.

(** C5.  Idempotence: after one successful [FixLink] of a real run
    ([dryRun] off), [CheckLink] on the resulting world classifies the
    link [OK], and a second [FixLink] returns ["skip"] and the world
    unchanged. *)
Theorem C5_idempotence m linkPath targetPath w a w' :
  dryRun m = false →
  FixLink m linkPath targetPath w = (Ok a, w') →
  Status (CheckLink m linkPath targetPath w') = StatusOK
  ∧ FixLink m linkPath targetPath w' = (Ok "skip", w').
Proof.
  intros Hdry Hfix.
  pose proof (FixLink_converges _ _ _ _ _ _ Hdry Hfix) as Hok.
  split; [done|]. by apply FixLink_OK.
Qed.

Lemma C5_witness :
  let m := NewManager false false false in
  let w' := (FixLink m "/w/.agent/AGENTS.md" "/w/CLAUDE.md" project).2 in
  Status (CheckLink m "/w/.agent/AGENTS.md" "/w/CLAUDE.md" w') = StatusOK
  ∧ FixLink m "/w/.agent/AGENTS.md" "/w/CLAUDE.md" w' = (Ok "skip", w').
Proof.
  apply (C5_idempotence (NewManager false false false) "/w/.agent/AGENTS.md"
           "/w/CLAUDE.md" project "create"); [reflexivity|].
  vm_compute. reflexivity.
Defined.

(** C8.  Relative targets: a real [CreateLink] that succeeds has stored
    a target that is the relative path from the link's directory to the
    source, as [filepath.Rel] computes it, and that target is never
    absolute.  Concretely, for any directory [A], a link at [A/b.md] for
    the source [A/C/d.md] gets the target [C/d.md], and a link at
    [A/x/y.md] for the source [A/d.md] gets [../d.md]. *)
Theorem C8_relative_target m linkPath targetPath w w' :
  dryRun m = false →
  CreateLink m linkPath targetPath w = (None, w') →
  (∃ rel, filepath.Rel (filepath.Dir linkPath) targetPath = Ok rel
          ∧ filepath.IsAbs rel = false
          ∧ Readlink linkPath w' = Ok rel)
  ∧ (∀ A, filepath.Rel (filepath.Dir (A +:+ "/b.md")) (A +:+ "/C/d.md") = Ok "C/d.md"
          ∧ filepath.Rel (filepath.Dir (A +:+ "/x/y.md")) (A +:+ "/d.md") = Ok "../d.md").
Proof.
  intros Hdry Hc. split.
  - destruct (CreateLink_ok _ _ _ _ _ Hdry Hc) as (rel & Hrel & He).
    exists rel. split_and!; [done|by apply Rel_not_abs in Hrel|].
    by rewrite Readlink_entry, He.
  - intros A. split.
    + change (A +:+ "/b.md") with (A +:+ "/" +:+ "b.md").
      change (A +:+ "/C/d.md") with (A +:+ "/" +:+ "C/d.md").
      rewrite Dir_app_name by done.
      apply (Rel_elems _ _ (filepath.elems (A +:+ "/")) [] ["C"; "d.md"]);
        try done.
      * by rewrite IsAbs_Clean, IsAbs_app_sep.
      * by rewrite elems_Clean, app_nil_r.
      * rewrite elems_below. simpl. by rewrite rev_involutive, <-app_assoc.
    + assert (Hl : A +:+ "/x/y.md" = (A +:+ "/x") +:+ "/" +:+ "y.md")
        by by rewrite append_assoc.
      assert (Hd : (A +:+ "/x") +:+ "/" = A +:+ "/" +:+ "x/")
        by by rewrite append_assoc.
      change (A +:+ "/d.md") with (A +:+ "/" +:+ "d.md").
      rewrite Hl, Dir_app_name, Hd by done.
      apply (Rel_elems _ _ (filepath.elems (A +:+ "/")) ["x"] ["d.md"]);
        try done.
      * by rewrite IsAbs_Clean, !IsAbs_app_sep.
      * rewrite elems_Clean, elems_below. simpl. by rewrite rev_involutive.
      * rewrite elems_below. simpl. by rewrite rev_involutive.
Qed.

Lemma C8_witness :
  let m := NewManager false false false in
  let w' := (CreateLink m "/w/x/y.md" "/w/CLAUDE.md" project).2 in
  (∃ rel, filepath.Rel (filepath.Dir "/w/x/y.md") "/w/CLAUDE.md" = Ok rel
          ∧ filepath.IsAbs rel = false
          ∧ Readlink "/w/x/y.md" w' = Ok rel)
  ∧ Readlink "/w/x/y.md" w' = Ok "../CLAUDE.md".
Proof.
  split; [|vm_compute; reflexivity].
  apply (C8_relative_target (NewManager false false false) "/w/x/y.md"
           "/w/CLAUDE.md" project); [reflexivity|].
  vm_compute. reflexivity.
Defined.




(** C2, on the failing input.  In a dry run with [force] on, [FixLink]
    on a regular file at the link path reports ["replace"] and has
    removed the file: only the creation is suppressed.  Without [force]
    the same happens to a link that cannot be read (["fix broken"]). *)
Theorem C2_dry_run_removes :
  entry_at "/w/AGENTS.md" project = inr (RegularFile "Y")
  ∧ (FixLink (NewManager true true false) "/w/AGENTS.md" "/w/CLAUDE.md" project).1
    = Ok "replace"
  ∧ entry_at "/w/AGENTS.md"
      (FixLink (NewManager true true false) "/w/AGENTS.md" "/w/CLAUDE.md" project).2
    = inl ENOENT
  ∧ (FixLink (NewManager true false false) "/w/unread.md" "/w/CLAUDE.md" project).1
    = Ok "fix broken"
  ∧ entry_at "/w/unread.md"
      (FixLink (NewManager true false false) "/w/unread.md" "/w/CLAUDE.md" project).2
    = inl ENOENT.
Proof. vm_compute. done. Qed.

(** C6, as stated, fails.  [dang.md] is a link whose target does not
    exist; [CheckLink] classifies it [WrongTarget], not [Broken], and
    without [force] [FixLink] rejects it and leaves it in place. *)
Lemma C6_counterexample :
  dangling "/w/dang.md" project
  ∧ Status (CheckLink (NewManager false false false)
              "/w/dang.md" "/w/CLAUDE.md" project) = StatusWrongTarget
  ∧ FixLink (NewManager false false false) "/w/dang.md" "/w/CLAUDE.md" project
    = (Err (Errorf "symlink /w/dang.md points to wrong target gone.md (expected /w/CLAUDE.md), use --force to fix"),
       project).
Proof.
  split_and!.
  - split; [by exists "gone.md"|].
    exists (PathError "stat" "/w/dang.md" ENOENT). by vm_compute.
  - by vm_compute.
  - by vm_compute.
Qed.

(** C6, amended.  [CheckLink] never looks at what a link points to.  A
    dangling link is classified like any link that can be read, by its
    stored target alone: [OK] when the target names the expected source,
    [WrongTarget] otherwise.  [Broken] is returned exactly when [lstat]
    fails for a reason other than "does not exist" or [readlink] fails.
    For a [Broken] link a real [FixLink] that succeeds has, with or
    without [force], removed the unreadable link and created the
    correct one, and returns ["fix broken"]. *)
Theorem C6_dangling_and_broken m linkPath targetPath w :
  (dangling linkPath w →
   ∃ t, Readlink linkPath w = Ok t
        ∧ Status (CheckLink m linkPath targetPath w)
          = if decide (names_source linkPath t targetPath)
            then StatusOK else StatusWrongTarget)
  ∧ (Status (CheckLink m linkPath targetPath w) = StatusBroken ↔
       (∃ err, Lstat linkPath w = Err err ∧ IsNotExist err = false)
       ∨ (∃ fi err, Lstat linkPath w = Ok fi ∧ Readlink linkPath w = Err err
                    ∧ (Z.land (Mode fi) ModeSymlink =? 0)%Z = false))
  ∧ (Status (CheckLink m linkPath targetPath w) = StatusBroken →
     dryRun m = false →
     ∀ a w', FixLink m linkPath targetPath w = (Ok a, w') →
       a = "fix broken"
       ∧ (∃ k t, namei w false linkPath = inr k
                 ∧ files w !! k = Some (SymbolicLink t false)
                 ∧ CreateLink m linkPath targetPath
                     (set_files w (delete k (files w))) = (None, w'))
       ∧ link_installed linkPath targetPath w'
       ∧ Status (CheckLink m linkPath targetPath w') = StatusOK).
Proof.
  split_and!.
  - intros [[t Ht] _]. exists t. split; [done|]. by apply CheckLink_readable.
  - apply CheckLink_broken.
  - intros Hst Hdry a w' Hfix.
    destruct (FixLink_Broken_ok _ _ _ _ _ _ Hst Hfix) as (-> & k & t & Hk & Hfk & Hc).
    split_and!; [done|by exists k, t| |].
    + by apply CreateLink_ok in Hc.
    + by apply CreateLink_ok_status in Hc.
Qed.

Lemma C6_witness :
  let m := NewManager false false false in
  let w' := (FixLink m "/w/unread.md" "/w/CLAUDE.md" project).2 in
  Status (CheckLink m "/w/unread.md" "/w/CLAUDE.md" project) = StatusBroken
  ∧ "fix broken" = "fix broken"
  ∧ (∃ k t, namei project false "/w/unread.md" = inr k
            ∧ files project !! k = Some (SymbolicLink t false)
            ∧ CreateLink m "/w/unread.md" "/w/CLAUDE.md"
                (set_files project (delete k (files project))) = (None, w'))
  ∧ link_installed "/w/unread.md" "/w/CLAUDE.md" w'
  ∧ Status (CheckLink m "/w/unread.md" "/w/CLAUDE.md" w') = StatusOK.
Proof.
  assert (Hst : Status (CheckLink (NewManager false false false)
                          "/w/unread.md" "/w/CLAUDE.md" project) = StatusBroken)
    by (vm_compute; reflexivity).
  split; [exact Hst|].
  apply (proj2 (proj2 (C6_dangling_and_broken (NewManager false false false)
                         "/w/unread.md" "/w/CLAUDE.md" project)) Hst eq_refl
           "fix broken").
  vm_compute. reflexivity.
Defined.

(** C4.  The decision table.  [FixLink] succeeds only with the action
    the table gives for the classification and the [force] policy, and
    the two conflict cells fail with the world unchanged.  Row by row,
    for a real run ([dryRun] off) that succeeds: [OK] returns ["skip"]
    and the world unchanged; [Missing] creates the link, removing
    nothing, and returns ["create"]; [WrongTarget] with [force] removes
    the existing link, creates the new one and returns ["fix"];
    [NotSymlink] with [force] removes the existing entry and everything
    below it, creates the new link and returns ["replace"]; [Broken]
    removes the entry and creates the new link, returning
    ["fix broken"], whether or not [force] is set.  In every row but
    [OK] the link is in place afterwards.  Conversely, whenever the
    removal of a row and the creation after it succeed, [FixLink]
    returns the action of that row. *)
Theorem C4_decision_table m linkPath targetPath w :
  let st := Status (CheckLink m linkPath targetPath w) in
  (∀ a w', FixLink m linkPath targetPath w = (Ok a, w') →
           decision st (force m) = Some a)
  ∧ (decision st (force m) = None →
     ∃ msg, FixLink m linkPath targetPath w = (Err (Errorf msg), w))
  ∧ (st = StatusOK → FixLink m linkPath targetPath w = (Ok "skip", w))
  ∧ (st ≠ StatusOK →
     ∀ a w1 w', decision st (force m) = Some a →
       removal st linkPath w = (None, w1) →
       CreateLink m linkPath targetPath w1 = (None, w') →
       FixLink m linkPath targetPath w = (Ok a, w'))
  ∧ (dryRun m = false →
     ∀ a w', FixLink m linkPath targetPath w = (Ok a, w') → st ≠ StatusOK →
       link_installed linkPath targetPath w'
       ∧ match st with
         | StatusOK => True
         | StatusMissing =>
             a = "create" ∧ files w ⊆ files w'
             ∧ CreateLink m linkPath targetPath w = (None, w')
         | StatusWrongTarget =>
             a = "fix" ∧ force m = true
             ∧ ∃ k t, namei w false linkPath = inr k
                      ∧ files w !! k = Some (SymbolicLink t true)
                      ∧ CreateLink m linkPath targetPath
                          (set_files w (delete k (files w))) = (None, w')
         | StatusNotSymlink =>
             a = "replace" ∧ force m = true
             ∧ ∃ k i, namei w false linkPath = inr k
                      ∧ files w !! k = Some i ∧ is_symlink i = false
                      ∧ CreateLink m linkPath targetPath
                          (set_files w
                             (filter (λ kv : key * inode, has_prefix k kv.1 = false)
                                (files w))) = (None, w')
         | StatusBroken =>
             a = "fix broken"
             ∧ ∃ k t, namei w false linkPath = inr k
                      ∧ files w !! k = Some (SymbolicLink t false)
                      ∧ CreateLink m linkPath targetPath
                          (set_files w (delete k (files w))) = (None, w')
         end).
Proof.
  intros st. subst st.
  destruct (Status (CheckLink m linkPath targetPath w)) eqn:Hst; simpl.
  - rewrite (FixLink_OK _ _ _ _ Hst). split_and!; try done.
    by intros a w' [= <- <-].
  - split_and!; try done.
    + by intros a w' [-> _]%(FixLink_Missing_ok _ _ _ _ _ _ Hst).
    + intros _ a w1 w' [= <-] [= <-] Hc.
      by rewrite (FixLink_Missing _ _ _ _ Hst), Hc.
    + intros Hdry a w' [-> Hc]%(FixLink_Missing_ok _ _ _ _ _ _ Hst) _.
      split_and!; [by apply CreateLink_ok in Hc|done| |done].
      by apply CreateLink_grows in Hc as [??].
  - split_and!; try done.
    + by intros a w' (-> & -> & _)%(FixLink_WrongTarget_ok _ _ _ _ _ _ Hst).
    + destruct (force m) eqn:Hf; [done|]. intros _.
      rewrite (FixLink_conflict _ _ _ _ Hf), Hst. by eexists.
    + intros _ a w1 w' Hd Hrm Hc. destruct (force m) eqn:Hf; [|done].
      injection Hd as <-.
      by rewrite (FixLink_WrongTarget_force _ _ _ _ Hst Hf), Hrm, Hc.
    + intros Hdry a w'
        (Hf & -> & k & t & Hk & Hfk & Hc)%(FixLink_WrongTarget_ok _ _ _ _ _ _ Hst) _.
      split_and!; [by apply CreateLink_ok in Hc|done..|by exists k, t].
  - split_and!; try done.
    + by intros a w' (-> & -> & _)%(FixLink_NotSymlink_ok _ _ _ _ _ _ Hst).
    + destruct (force m) eqn:Hf; [done|]. intros _.
      rewrite (FixLink_conflict _ _ _ _ Hf), Hst. by eexists.
    + intros _ a w1 w' Hd Hrm Hc. destruct (force m) eqn:Hf; [|done].
      injection Hd as <-.
      by rewrite (FixLink_NotSymlink_force _ _ _ _ Hst Hf), Hrm, Hc.
    + intros Hdry a w'
        (Hf & -> & k & i & Hk & Hfk & Hi & Hc)%(FixLink_NotSymlink_ok _ _ _ _ _ _ Hst) _.
      split_and!; [by apply CreateLink_ok in Hc|done..|by exists k, i].
  - split_and!; try done.
    + by intros a w' [-> _]%(FixLink_Broken_ok _ _ _ _ _ _ Hst).
    + intros _ a w1 w' [= <-] Hrm Hc.
      by rewrite (FixLink_Broken _ _ _ _ Hst), Hrm, Hc.
    + intros Hdry a w'
        (-> & k & t & Hk & Hfk & Hc)%(FixLink_Broken_ok _ _ _ _ _ _ Hst) _.
      split_and!; [by apply CreateLink_ok in Hc|done|by exists k, t].
Qed.

Lemma C4_witness :
  let m := NewManager false true false in
  let w' := (FixLink m "/w/docs" "/w/CLAUDE.md" project).2 in
  decision (Status (CheckLink m "/w/docs" "/w/CLAUDE.md" project)) true
  = Some "replace"
  ∧ link_installed "/w/docs" "/w/CLAUDE.md" w'
  ∧ files w' !! ["w"; "docs"; "a.md"] = None.
Proof.
  intros m w'.
  assert (Hfix : FixLink m "/w/docs" "/w/CLAUDE.md" project = (Ok "replace", w'))
    by (vm_compute; reflexivity).
  assert (Hst : Status (CheckLink m "/w/docs" "/w/CLAUDE.md" project) ≠ StatusOK)
    by (vm_compute; discriminate).
  destruct (C4_decision_table m "/w/docs" "/w/CLAUDE.md" project)
    as (Hact & _ & _ & _ & Hrow).
  split_and!.
  - exact (Hact "replace" w' Hfix).
  - exact (proj1 (Hrow eq_refl "replace" w' Hfix Hst)).
  - vm_compute. reflexivity.
Defined.

(** The link loop of [runCheck] appends one report line per link. *)
Lemma check_loop manager source n w links hasProblems out :
  ∃ hasProblems',
    fold_left (cli.check_step manager source n w) links (hasProblems, out)
    = (hasProblems',
       out ++ flat_map (λ linkPath,
                 cli.check_line source n linkPath
                   (CheckLink manager linkPath source w)) links)
    ∧ (hasProblems = true → hasProblems' = true).
Proof.
  revert hasProblems out.
  induction links as [|l links IH]; intros hasProblems out; simpl.
  { exists hasProblems. by rewrite app_nil_r. }
  destruct (IH (if decide (Status (CheckLink manager l source w) ≠ StatusOK)
                then true else hasProblems)
               (out ++ cli.check_line source n l (CheckLink manager l source w)))
    as (hp & Heq & Hhp).
  exists hp. rewrite Heq. split; [by rewrite <-app_assoc|].
  intros ->. apply Hhp. by case_decide.
Qed.

(** C7, as stated, fails for [check].  The source does not exist, so
    validation fails; [runCheck] goes on to classify the configured link
    and prints its status. *)
Lemma C7_counterexample :
  ValidateSource (NewManager false false false) "/w/nope.md" project
  = Some (Errorf "source file /w/nope.md does not exist")
  ∧ In (cli.Printf ("not a symlink ✗" +:+ cli.nl) [])
       (cli.runCheck
          {| cli.dryRun := false; cli.force := false; cli.verbose := false |}
          "/w/.agentlink.yaml" true
          {| cli.Source := "/w/nope.md"; cli.Links := ["/w/AGENTS.md"] |}
          project).2.
Proof. vm_compute. split; [done|]. right. right. right. by left. Qed.

(** C7, amended.  When source validation fails, [sync] returns that
    error at once: the world is unchanged and nothing about a link is
    printed or done.  [check] records the error in its header, still
    classifies every configured link, in order, and prints its line, and
    fails at the end; it changes nothing. *)
Theorem C7_invalid_source fl configPath isProject cfg w :
  (∀ err,
     ValidateSource (NewManager (cli.dryRun fl) (cli.force fl) (cli.verbose fl))
       (cli.Source cfg) w = Some err →
     cli.runSync fl configPath isProject cfg w
     = (Some err, w,
        sync_banner fl configPath isProject
        ++ [cli.printError "Source validation failed: %v" [cli.AError err]]))
  ∧ (∀ err,
       ValidateSource (NewManager false false (cli.verbose fl)) (cli.Source cfg) w
       = Some err →
       cli.runCheck fl configPath isProject cfg w
       = (Some (Errorf "configuration has problems"),
          (check_banner fl configPath isProject
           ++ [cli.Printf ("Source: %s [%s]" +:+ cli.nl)
                 [cli.AString (cli.Source cfg); cli.ASprintf "ERROR: %v" err];
               cli.Printf ("Links:" +:+ cli.nl) []])
          ++ check_report (NewManager false false (cli.verbose fl)) cfg w
          ++ [cli.Printf (cli.nl +:+ "Found problems. Run 'agentlink sync' to fix them."
                          +:+ cli.nl) []])).
Proof.
  split; intros err Hv.
  - unfold cli.runSync. by rewrite Hv.
  - unfold cli.runCheck. rewrite Hv. cbv beta iota zeta.
    match goal with
    | |- context [fold_left _ _ (true, ?o)] =>
        destruct (check_loop (NewManager false false (cli.verbose fl))
                    (cli.Source cfg) (cli.max_path_len (cli.Links cfg)) w
                    (cli.Links cfg) true o) as (hp & Heq & Hhp)
    end.
    rewrite Heq, (Hhp eq_refl). simpl. by rewrite <-app_assoc.
Qed.

Lemma C7_witness :
  let fl := {| cli.dryRun := false; cli.force := false; cli.verbose := false |} in
  let cfg := {| cli.Source := "/w/nope.md"; cli.Links := ["/w/AGENTS.md"] |} in
  cli.runSync fl "/w/.agentlink.yaml" true cfg project
  = (Some (Errorf "source file /w/nope.md does not exist"), project,
     [cli.printError "Source validation failed: %v"
        [cli.AError (Errorf "source file /w/nope.md does not exist")]])
  ∧ (cli.runCheck fl "/w/.agentlink.yaml" true cfg project).1
    = Some (Errorf "configuration has problems").
Proof.
  intros fl cfg.
  assert (Hv : ValidateSource (NewManager false false false) "/w/nope.md" project
               = Some (Errorf "source file /w/nope.md does not exist"))
    by (vm_compute; reflexivity).
  destruct (C7_invalid_source fl "/w/.agentlink.yaml" true cfg project) as [Hs Hc].
  split.
  - exact (Hs _ Hv).
  - exact (f_equal fst (Hc _ Hv)).
Defined.

(** * Facts about the command loops *)

(** Resolution does not depend on the links that may not be read: a
    path that resolves keeps its place when such links come and go and
    everything else stays. *)
Lemma walk_live (b : nat) (fs fs' : gmap key inode) cur names k :
  (∀ k i, fs !! k = Some i → unreadable i = false → fs' !! k = Some i) →
  walk b fs false cur names = inr k → walk b fs' false cur names = inr k.
Proof.
  intros Hlive. revert cur names.
  induction b as [|b IHb]; intros cur names; revert cur.
  all: induction names as [|n rest IH]; intros cur; [by rewrite !walk_nil|].
  all: rewrite !walk_cons.
  all: case_decide; [by apply IH|].
  all: case_decide; [by apply IH|].
  all: destruct (fs !! (cur ++ [n])) as [i|] eqn:Hi.
  all: try (destruct (unreadable i) eqn:Hu;
            [destruct i as [| |t []|]; try done|rewrite (Hlive _ _ Hi Hu)]).
  all: try (destruct rest; [|done]; simpl; intros [= <-];
            destruct (fs' !! (cur ++ [n])) as [[]|]; by rewrite ?walk_nil).
  all: destruct i as [c| |t r|]; try done; try by apply IH.
  all: destruct (negb false && is_nil rest); [done|].
  all: destruct (negb r); [done|].
  all: case_decide; [done|]; try done.
  by apply IHb.
Qed.

Lemma inode_at_live (w w' : World) k i :
  keeps_live w w' → unreadable i = false →
  inode_at w k = Some i → inode_at w' k = Some i.
Proof.
  intros [_ Hlive] Hu. destruct k; [done|]. simpl. intros Hi. by apply Hlive.
Qed.

Lemma namei_live (w w' : World) name k :
  keeps_live w w' →
  namei w false name = inr k → namei w' false name = inr k.
Proof.
  intros Hl. pose proof Hl as [Hcwd Hlive]. unfold namei. case_decide; [done|].
  destruct (filepath.IsAbs name); [apply walk_live; exact Hlive|].
  rewrite Hcwd. destruct (inode_at w (cwd w)) as [i|] eqn:Hi; [|done].
  destruct i; [done| |done|done].
  rewrite (inode_at_live w w' _ Directory Hl eq_refl Hi). apply walk_live; exact Hlive.
Qed.

Lemma entry_at_live (w w' : World) name i :
  keeps_live w w' → unreadable i = false →
  entry_at name w = inr i → entry_at name w' = inr i.
Proof.
  intros Hl Hu. unfold entry_at.
  destruct (namei w false name) as [e|k] eqn:Hk; [done|].
  rewrite (namei_live _ _ _ _ Hl Hk).
  destruct (inode_at w k) as [j|] eqn:Hj; [|done].
  intros [= ->]. by rewrite (inode_at_live _ _ _ _ Hl Hu Hj).
Qed.

Lemma keeps_live_refl w : keeps_live w w.
Proof. by split. Qed.

Lemma keeps_live_trans w1 w2 w3 :
  keeps_live w1 w2 → keeps_live w2 w3 → keeps_live w1 w3.
Proof.
  intros [Hc12 H12] [Hc23 H23]. split; [congruence|].
  intros k i Hk Hu. apply H23; [|done]. by apply H12.
Qed.

Lemma grows_live w w' : files w ⊆ files w' → cwd w' = cwd w → keeps_live w w'.
Proof.
  intros Hsub Hc. split; [done|]. intros k i Hk _.
  by apply (lookup_weaken _ _ _ _ Hk Hsub).
Qed.

(** A link in place stays in place as long as the live nodes do. *)
Lemma ok_live m m' l s w w' :
  keeps_live w w' →
  Status (CheckLink m l s w) = StatusOK →
  Status (CheckLink m' l s w') = StatusOK.
Proof.
  intros Hl. rewrite !CheckLink_status. intros Hst.
  destruct (classify_link l s _ (or_introl Hst)) as [t He].
  by rewrite (entry_at_live _ _ _ (SymbolicLink t true) Hl eq_refl He), <-He.
Qed.

(** Without force, [FixLink] removes nothing but links that may not be
    read. *)
Lemma FixLink_live m l s w :
  force m = false → keeps_live w (FixLink m l s w).2.
Proof.
  intros Hf. destruct (Status (CheckLink m l s w)) eqn:Hst.
  - rewrite (FixLink_OK _ _ _ _ Hst). apply keeps_live_refl.
  - rewrite (FixLink_Missing _ _ _ _ Hst).
    destruct (CreateLink m l s w) as [r w1] eqn:Hc.
    apply CreateLink_grows in Hc as [Hsub Hcwd].
    destruct r; by apply grows_live.
  - rewrite (FixLink_conflict _ _ _ _ Hf), Hst. apply keeps_live_refl.
  - rewrite (FixLink_conflict _ _ _ _ Hf), Hst. apply keeps_live_refl.
  - rewrite (FixLink_Broken _ _ _ _ Hst).
    destruct (Remove l w) as [[err|] w1] eqn:Hrm.
    { apply Remove_err in Hrm as ->. apply keeps_live_refl. }
    destruct (Broken_remove _ _ _ _ _ Hst Hrm) as (k & t & _ & Hk & _ & ->).
    destruct (CreateLink m l s _) as [r w2] eqn:Hc.
    apply CreateLink_grows in Hc as [Hsub Hcwd].
    apply (keeps_live_trans _ (set_files w (delete k (files w)))).
    + split; [done|]. intros k' i Hk' Hu. simpl.
      rewrite lookup_delete_ne; [done|]. intros <-. rewrite Hk in Hk'.
      by injection Hk' as <-.
    + destruct r; by apply grows_live.
Qed.

Lemma shrinks_refl w : shrinks w w.
Proof. by split. Qed.

Lemma shrinks_trans w1 w2 w3 : shrinks w1 w2 → shrinks w2 w3 → shrinks w1 w3.
Proof. intros [H12 Hc12] [H23 Hc23]. split; [by etrans|congruence]. Qed.

Lemma Remove_shrinks name w r w' : Remove name w = (r, w') → shrinks w w'.
Proof.
  destruct r as [err|]; [by intros ->%Remove_err|].
  intros (k & i & _ & _ & _ & ->)%Remove_ok. split; [|done]. apply delete_subseteq.
Qed.

Lemma RemoveAll_shrinks path w r w' : RemoveAll path w = (r, w') → shrinks w w'.
Proof.
  unfold RemoveAll. case_decide; [by intros [= _ <-]|].
  destruct (endsWithDot path); [by intros [= _ <-]|].
  destruct (namei w false path) as [e|k].
  { destruct e; by intros [= _ <-]. }
  destruct (inode_at w k); [|by intros [= _ <-]].
  destruct k; intros [= _ <-]; (split; [apply map_filter_subseteq|done]).
Qed.

(** In a dry run [FixLink] adds nothing to the tree. *)
Lemma FixLink_dry_shrinks m l s w :
  dryRun m = true → shrinks w (FixLink m l s w).2.
Proof.
  intros Hd. unfold FixLink. rewrite !(CreateLink_dry _ _ _ _ Hd).
  destruct (Status (CheckLink m l s w)); simpl.
  - apply shrinks_refl.
  - apply shrinks_refl.
  - destruct (negb (force m)); [apply shrinks_refl|].
    destruct (Remove l w) as [[err|] w1] eqn:Hrm; simpl.
    all: try rewrite (CreateLink_dry _ _ _ _ Hd); by apply Remove_shrinks in Hrm.
  - destruct (negb (force m)); [apply shrinks_refl|].
    destruct (RemoveAll l w) as [[err|] w1] eqn:Hrm; simpl.
    all: try rewrite (CreateLink_dry _ _ _ _ Hd); by apply RemoveAll_shrinks in Hrm.
  - destruct (Remove l w) as [[err|] w1] eqn:Hrm; simpl.
    all: try rewrite (CreateLink_dry _ _ _ _ Hd); by apply Remove_shrinks in Hrm.
Qed.

(** [processLink] passes on the outcome and the world of [FixLink]. *)
Lemma processLink_FixLink fl m l s w :
  ∃ o, cli.processLink fl m l s w
       = (match (FixLink m l s w).1 with Err e => Some e | Ok _ => None end,
          (FixLink m l s w).2, o).
Proof.
  unfold cli.processLink. destruct (FixLink m l s w) as [[a|e] w1]; by eexists.
Qed.

(** The world the link loop of [runSync] ends in is reached from the
    first one by steps of [FixLink]; any relation between worlds that
    these steps keep holds for the loop. *)
Lemma sync_loop_world (R : World → World → Prop) fl m s links he w out :
  (∀ w, R w w) → (∀ w1 w2 w3, R w1 w2 → R w2 w3 → R w1 w3) →
  (∀ l w, R w (FixLink m l s w).2) →
  R w (fold_left (cli.sync_step fl m s) links (he, w, out)).1.2.
Proof.
  intros Hrefl Htrans Hstep. revert he w out.
  induction links as [|l links IH]; intros he w out; simpl; [done|].
  destruct (processLink_FixLink fl m l s w) as [o ->].
  apply (Htrans _ (FixLink m l s w).2); [done|].
  destruct (FixLink m l s w).1; apply IH.
Qed.

(** The link loop of a real [sync] without force: live nodes are kept,
    and when no error was flagged every link is in place at the end. *)
Lemma sync_loop_ok fl m s links he w out he' w' out' :
  force m = false → dryRun m = false →
  fold_left (cli.sync_step fl m s) links (he, w, out) = (he', w', out') →
  keeps_live w w'
  ∧ (he' = false →
     he = false ∧ ∀ m' l, l ∈ links → Status (CheckLink m' l s w') = StatusOK).
Proof.
  intros Hf Hd. revert he w out.
  induction links as [|l links IH]; intros he w out; simpl.
  { intros [= -> -> ->]. split; [apply keeps_live_refl|].
    intros ->. split; [done|]. by intros ?? ?%elem_of_nil. }
  destruct (processLink_FixLink fl m l s w) as [o ->].
  pose proof (FixLink_live m l s w Hf) as Hl1.
  pose proof (FixLink_converges m l s w) as Hconv.
  destruct (FixLink m l s w) as [[a|e] w1]; simpl in *.
  - intros [Hl2 Hok]%IH. split; [by apply (keeps_live_trans _ w1)|].
    intros [-> Hall]%Hok. split; [done|].
    intros m' l' [->|Hin]%elem_of_cons; [|by apply Hall].
    apply (ok_live m _ _ _ w1); [done|]. by apply (Hconv a).
  - intros [Hl2 Hok]%IH. split; [by apply (keeps_live_trans _ w1)|].
    by intros [[=] _]%Hok.
Qed.

(** When every link is in place, the link loop of [sync] changes
    nothing and prints the skip lines. *)
Lemma sync_loop_skip fl cfg m he w out :
  all_ok cfg w →
  fold_left (cli.sync_step fl m (cli.Source cfg)) (cli.Links cfg) (he, w, out)
  = (he, w, out ++ skip_report fl cfg).
Proof.
  unfold all_ok, skip_report. generalize (cli.Source cfg) as s.
  generalize (cli.Links cfg) as links. intros links s Hall. revert out.
  induction links as [|l links IH]; intros out; simpl; [by rewrite app_nil_r|].
  unfold cli.processLink.
  rewrite (FixLink_OK m l s w) by (apply Hall; by left).
  rewrite decide_True by done.
  rewrite IH by (intros m' l' Hin; apply Hall; by right).
  f_equal. rewrite <-!app_assoc. f_equal. by destruct (cli.verbose fl).
Qed.

(** The flag the link loop of [runCheck] ends with. *)
Lemma check_loop_flag manager source n w links hp out :
  (fold_left (cli.check_step manager source n w) links (hp, out)).1
  = hp || existsb (λ l, bool_decide (Status (CheckLink manager l source w) ≠ StatusOK))
            links.
Proof.
  revert hp out. induction links as [|l links IH]; intros hp out; simpl.
  { by rewrite orb_false_r. }
  rewrite IH. case_decide as Hs.
  - rewrite (bool_decide_eq_true_2 _ Hs). simpl. by rewrite orb_true_r.
  - assert (Hn : ¬ Status (CheckLink manager l source w) ≠ StatusOK)
      by (by intros []).
    by rewrite (bool_decide_eq_false_2 _ Hn).
Qed.

(** [runCheck] succeeds exactly when the source is valid and every
    link is in place. *)
Lemma runCheck_verdict fl configPath isProject cfg w :
  (cli.runCheck fl configPath isProject cfg w).1 = None
  ↔ ValidateSource (NewManager false false (cli.verbose fl)) (cli.Source cfg) w = None
    ∧ all_ok cfg w.
Proof.
  unfold cli.runCheck, all_ok.
  set (m := NewManager false false (cli.verbose fl)).
  destruct (ValidateSource m (cli.Source cfg) w) as [err|] eqn:Hv.
  all: cbv beta iota zeta.
  all: match goal with
       | |- context [fold_left ?f ?l ?st] =>
           pose proof (check_loop_flag m (cli.Source cfg)
                         (cli.max_path_len (cli.Links cfg)) w (cli.Links cfg)
                         st.1 st.2) as Hflag;
           destruct (fold_left f l st) as [hp out2] eqn:Hfold
       end.
  all: simpl in Hflag; rewrite Hfold in Hflag; simpl in Hflag; subst hp.
  { simpl. split; [done|]. by intros [[=] _]. }
  rewrite orb_false_r.
  destruct (existsb _ _) eqn:Hex; simpl.
  - split; [done|]. intros [_ Hall].
    apply existsb_exists in Hex as (l & Hin & Hl).
    apply bool_decide_eq_true in Hl. destruct Hl.
    apply Hall. by apply list_elem_of_In.
  - split; [|done]. intros _. split; [done|]. intros m' l Hin.
    destruct (decide (Status (CheckLink m l (cli.Source cfg) w) = StatusOK)) as [Hok|Hn].
    { rewrite !CheckLink_status in *. done. }
    assert (existsb (λ l, bool_decide (Status (CheckLink m l (cli.Source cfg) w)
                                         ≠ StatusOK)) (cli.Links cfg) = true);
      [|congruence].
    apply existsb_exists. exists l. split; [by apply list_elem_of_In|].
    by apply bool_decide_eq_true.
Qed.

(** A source that is valid without force is still valid when the live
    nodes are kept. *)
Lemma ValidateSource_live m m' s w w' :
  force m = false → keeps_live w w' →
  ValidateSource m s w = None → ValidateSource m' s w' = None.
Proof.
  intros Hf Hl. rewrite !ValidateSource_entry, Hf.
  destruct (entry_at s w) as [e|i] eqn:He; [by case_bool_decide|].
  destruct i as [c| |t r|]; try done.
  by rewrite (entry_at_live _ _ _ (RegularFile c) Hl eq_refl He).
Qed.

(** * Properties of the commands *)

(** X1.  The verdict of [check]: it returns no error exactly when the
    source is valid (as [ValidateSource] without force judges it) and
    every configured link is classified [OK]; the only error it returns
    once the configuration is loaded is ["configuration has problems"]. *)
Theorem X1_check_verdict fl configPath isProject cfg w :
  ((cli.runCheck fl configPath isProject cfg w).1 = None
   ↔ ValidateSource (NewManager false false (cli.verbose fl)) (cli.Source cfg) w = None
     ∧ all_ok cfg w)
  ∧ ((cli.runCheck fl configPath isProject cfg w).1 = None
     ∨ (cli.runCheck fl configPath isProject cfg w).1
       = Some (Errorf "configuration has problems")).
Proof.
  split; [apply runCheck_verdict|].
  unfold cli.runCheck.
  destruct (ValidateSource _ _ w); cbv beta iota zeta.
  all: destruct (fold_left _ _ _) as [hp out2].
  all: destruct (hp || _); simpl; auto.
Qed.

(** X2.  After a real [sync] without force that returned no error,
    every configured link is classified [OK] and [check], whatever its
    flags, returns no error. *)
Theorem X2_sync_then_check fl configPath isProject cfg w w' out
    fl' configPath' isProject' :
  cli.dryRun fl = false → cli.force fl = false →
  cli.runSync fl configPath isProject cfg w = (None, w', out) →
  all_ok cfg w'
  ∧ (cli.runCheck fl' configPath' isProject' cfg w').1 = None.
Proof.
  intros Hd Hf. unfold cli.runSync. rewrite Hd, Hf.
  set (m := NewManager false false (cli.verbose fl)).
  destruct (ValidateSource m (cli.Source cfg) w) as [err|] eqn:Hv; [done|].
  destruct (fold_left _ _ _) as [[he w1] out2] eqn:Hfold.
  destruct he; [done|]. intros [= -> ->].
  apply (sync_loop_ok _ m) in Hfold as [Hl Hok]; [|done|done].
  destruct (Hok eq_refl) as [_ Hall].
  assert (Hao : all_ok cfg w') by (intros m' l Hin; by apply Hall).
  split; [done|]. apply runCheck_verdict. split; [|done].
  by apply (ValidateSource_live m _ _ w).
Qed.

Lemma X2_witness :
  let fl := {| cli.dryRun := false; cli.force := false; cli.verbose := true |} in
  let cfg := {| cli.Source := "/w/CLAUDE.md";
                cli.Links := ["/w/.agent/AGENTS.md"; "/w/unread.md"; "/w/ok.md"] |} in
  let w' := (cli.runSync fl "/w/.agentlink.yaml" true cfg project).1.2 in
  all_ok cfg w'
  ∧ (cli.runCheck fl "/w/.agentlink.yaml" true cfg w').1 = None.
Proof.
  intros fl cfg w'.
  apply (X2_sync_then_check fl "/w/.agentlink.yaml" true cfg project w'
           (cli.runSync fl "/w/.agentlink.yaml" true cfg project).2);
    [reflexivity|reflexivity|].
  vm_compute. reflexivity.
Defined.

(** X3.  [sync] is idempotent: after a real [sync] without force that
    returned no error, the same [sync] again returns no error, leaves
    the world as it is and prints only the source line and, with
    [verbose], the skip lines; in particular no link is created. *)
Theorem X3_sync_twice fl configPath isProject cfg w w' out :
  cli.dryRun fl = false → cli.force fl = false →
  cli.runSync fl configPath isProject cfg w = (None, w', out) →
  cli.runSync fl configPath isProject cfg w'
  = (None, w',
     sync_banner fl configPath isProject
     ++ [cli.printOK "Source: %s" [cli.AString (cli.Source cfg)]]
     ++ skip_report fl cfg).
Proof.
  intros Hd Hf Hrun. pose proof Hrun as Hrun'. revert Hrun'.
  unfold cli.runSync at 1. rewrite Hd, Hf.
  set (m := NewManager false false (cli.verbose fl)).
  destruct (ValidateSource m (cli.Source cfg) w) as [err|] eqn:Hv; [done|].
  destruct (fold_left _ _ _) as [[he w1] out2] eqn:Hfold.
  destruct he; [done|]. intros [= -> ->].
  apply (sync_loop_ok _ m) in Hfold as [Hl Hok]; [|done|done].
  destruct (Hok eq_refl) as [_ Hall].
  assert (Hao : all_ok cfg w') by (intros m' l Hin; by apply Hall).
  unfold cli.runSync. rewrite Hd, Hf. fold m.
  rewrite (ValidateSource_live m m _ w w') by done.
  rewrite (sync_loop_skip fl cfg m false w' _ Hao).
  unfold sync_banner. by rewrite <-app_assoc.
Qed.

Lemma X3_witness :
  let fl := {| cli.dryRun := false; cli.force := false; cli.verbose := false |} in
  let cfg := {| cli.Source := "/w/CLAUDE.md";
                cli.Links := ["/w/.agent/AGENTS.md"; "/w/unread.md"; "/w/ok.md"] |} in
  let w' := (cli.runSync fl "/w/.agentlink.yaml" true cfg project).1.2 in
  cli.runSync fl "/w/.agentlink.yaml" true cfg w'
  = (None, w', [cli.printOK "Source: %s" [cli.AString "/w/CLAUDE.md"]]).
Proof.
  intros fl cfg w'.
  apply (X3_sync_twice fl "/w/.agentlink.yaml" true cfg project w'
           (cli.runSync fl "/w/.agentlink.yaml" true cfg project).2);
    [reflexivity|reflexivity|].
  vm_compute. reflexivity.
Defined.

(** X4.  Without force, [sync] never removes or changes a regular
    file, a directory or any other node that is not a symbolic link,
    in a dry run or a real one, whether it fails or not. *)
Theorem X4_sync_keeps_files fl configPath isProject cfg w :
  cli.force fl = false →
  keeps_files w (cli.runSync fl configPath isProject cfg w).1.2.
Proof.
  intros Hf. unfold cli.runSync.
  set (m := NewManager (cli.dryRun fl) (cli.force fl) (cli.verbose fl)).
  destruct (ValidateSource m (cli.Source cfg) w); [apply keeps_files_refl|].
  match goal with
  | |- context [fold_left ?f ?l (?he, w, ?o)] =>
      pose proof (sync_loop_world keeps_files fl m (cli.Source cfg) l he w o
                    keeps_files_refl keeps_files_trans) as Hloop;
      destruct (fold_left f l (he, w, o)) as [[he' w1] out2]
  end.
  simpl in Hloop.
  assert (keeps_files w w1) by (apply Hloop; intros l' w0; by apply FixLink_keeps).
  destruct he'; [done|]. by destruct (cli.dryRun fl).
Qed.

Lemma X4_witness :
  let fl := {| cli.dryRun := false; cli.force := false; cli.verbose := false |} in
  let cfg := {| cli.Source := "/w/CLAUDE.md";
                cli.Links := ["/w/AGENTS.md"; "/w/unread.md"; "/w/docs"] |} in
  keeps_files project (cli.runSync fl "/w/.agentlink.yaml" true cfg project).1.2.
Proof.
  intros fl cfg.
  apply (X4_sync_keeps_files fl "/w/.agentlink.yaml" true cfg project).
  reflexivity.
Defined.

(** X5.  A dry run of [sync] creates nothing: whatever the other flags
    and the outcome, every node of the tree it leaves was there before,
    unchanged, and no directory or link has been added. *)
Theorem X5_dry_sync_creates_nothing fl configPath isProject cfg w :
  cli.dryRun fl = true →
  shrinks w (cli.runSync fl configPath isProject cfg w).1.2.
Proof.
  intros Hd. unfold cli.runSync.
  set (m := NewManager (cli.dryRun fl) (cli.force fl) (cli.verbose fl)).
  destruct (ValidateSource m (cli.Source cfg) w); [apply shrinks_refl|].
  match goal with
  | |- context [fold_left ?f ?l (?he, w, ?o)] =>
      pose proof (sync_loop_world shrinks fl m (cli.Source cfg) l he w o
                    shrinks_refl shrinks_trans) as Hloop;
      destruct (fold_left f l (he, w, o)) as [[he' w1] out2]
  end.
  simpl in Hloop.
  assert (shrinks w w1) by (apply Hloop; intros l' w0; by apply FixLink_dry_shrinks).
  destruct he'; [done|]. by rewrite Hd.
Qed.

Lemma X5_witness :
  let fl := {| cli.dryRun := true; cli.force := true; cli.verbose := false |} in
  let cfg := {| cli.Source := "/w/CLAUDE.md";
                cli.Links := ["/w/new/AGENTS.md"; "/w/wrong.md"; "/w/docs"] |} in
  shrinks project (cli.runSync fl "/w/.agentlink.yaml" true cfg project).1.2.
Proof.
  intros fl cfg.
  apply (X5_dry_sync_creates_nothing fl "/w/.agentlink.yaml" true cfg project).
  reflexivity.
Defined.

(** The link loop of a real [sync] without force: at the end every
    link is in place or its failure has been printed. *)
Lemma sync_loop_accounts fl m s links he w out he' w' out' :
  force m = false → dryRun m = false →
  fold_left (cli.sync_step fl m s) links (he, w, out) = (he', w', out') →
  (∀ x, x ∈ out → x ∈ out')
  ∧ ∀ m' l, l ∈ links →
      Status (CheckLink m' l s w') = StatusOK
      ∨ ∃ err, cli.printError "Failed to process %s: %v"
                 [cli.AString l; cli.AError err] ∈ out'.
Proof.
  intros Hf Hd. revert he w out.
  induction links as [|l links IH]; intros he w out; cbn [fold_left].
  { intros [= -> -> ->]. split; [done|]. by intros ?? ?%elem_of_nil. }
  unfold cli.sync_step at 2.
  destruct (processLink_FixLink fl m l s w) as [o ->].
  pose proof (FixLink_converges m l s w) as Hconv.
  destruct (FixLink m l s w) as [[a|e] w1]; cbn [fst snd].
  - intros Hfold. pose proof (sync_loop_ok _ _ _ _ _ _ _ _ _ _ Hf Hd Hfold) as [Hl _].
    apply IH in Hfold as [Hout Hall]. split.
    { intros x Hx. apply Hout, elem_of_app. by left. }
    intros m' l' [->|Hin]%elem_of_cons; [|by apply Hall].
    left. apply (ok_live m _ _ _ w1); [done|]. by apply (Hconv a).
  - intros Hfold. apply IH in Hfold as [Hout Hall]. split.
    { intros x Hx. apply Hout, elem_of_app. by left. }
    intros m' l' [->|Hin]%elem_of_cons; [|by apply Hall].
    right. exists e. apply Hout. rewrite !elem_of_app. right. right.
    apply elem_of_cons. by left.
Qed.

(** X6.  A real [sync] without force accounts for every configured
    link: once the source is validated, whatever [sync] returns, each
    link is classified [OK] in the world it leaves or a line saying that
    the link could not be processed, with the error, has been printed.
    A failing link does not keep the others from being put in place. *)
Theorem X6_sync_accounts_for_links fl configPath isProject cfg w m linkPath :
  cli.dryRun fl = false → cli.force fl = false →
  ValidateSource (NewManager false false (cli.verbose fl)) (cli.Source cfg) w = None →
  linkPath ∈ cli.Links cfg →
  Status (CheckLink m linkPath (cli.Source cfg)
            (cli.runSync fl configPath isProject cfg w).1.2) = StatusOK
  ∨ ∃ err, cli.printError "Failed to process %s: %v"
             [cli.AString linkPath; cli.AError err]
           ∈ (cli.runSync fl configPath isProject cfg w).2.
Proof.
  intros Hd Hf Hv Hin. unfold cli.runSync. rewrite Hd, Hf, Hv.
  set (m0 := NewManager false false (cli.verbose fl)).
  destruct (fold_left _ _ _) as [[he w1] out2] eqn:Hfold.
  apply (sync_loop_accounts _ m0) in Hfold as [_ Hall]; [|done|done].
  destruct (Hall m linkPath Hin) as [?|?]; destruct he; auto.
Qed.

Lemma X6_witness :
  let fl := {| cli.dryRun := false; cli.force := false; cli.verbose := false |} in
  let cfg := {| cli.Source := "/w/CLAUDE.md";
                cli.Links := ["/w/AGENTS.md"; "/w/.agent/AGENTS.md"] |} in
  Status (CheckLink (NewManager false false false) "/w/.agent/AGENTS.md" "/w/CLAUDE.md"
            (cli.runSync fl "/w/.agentlink.yaml" true cfg project).1.2) = StatusOK
  ∨ ∃ err, cli.printError "Failed to process %s: %v"
             [cli.AString "/w/.agent/AGENTS.md"; cli.AError err]
           ∈ (cli.runSync fl "/w/.agentlink.yaml" true cfg project).2.
Proof.
  intros fl cfg.
  apply (X6_sync_accounts_for_links fl "/w/.agentlink.yaml" true cfg project);
    [reflexivity|reflexivity|vm_compute; reflexivity|].
  apply elem_of_cons. right. apply elem_of_cons. by left.
Defined.

Lemma entry_at_mono (w w' : World) name i :
  files w ⊆ files w' → cwd w' = cwd w →
  entry_at name w = inr i → entry_at name w' = inr i.
Proof.
  intros Hsub Hc. unfold entry_at.
  destruct (namei w false name) as [e|k] eqn:Hk; [done|].
  rewrite (namei_mono _ _ _ _ Hsub Hc Hk).
  destruct (inode_at w k) as [j|] eqn:Hj; [|done].
  intros [= ->]. by rewrite (inode_at_mono _ _ _ _ Hsub Hj).
Qed.


(** One turn of the loop of [runClean]: the world it leaves and the
    counters. *)
Lemma clean_step_spec fl m s r k w out l :
  ∃ r' k' out',
    cli.clean_step fl m s (r, k, w, out) l
    = (r', k',
       (if cli.dryRun fl then w
        else match Status (CheckLink m l s w) with
             | StatusOK => (RemoveLink m l s w).2
             | StatusBroken => (Remove l w).2
             | _ => w
             end), out')
    ∧ (r' + k' ≤ S (r + k))%nat
    ∧ (cli.dryRun fl = true → (r' + k' = S (r + k))%nat).
Proof.
  unfold cli.clean_step.
  destruct (Status (CheckLink m l s w)), (cli.dryRun fl); simpl.
  all: try (eexists _, _, _; split; [reflexivity|]; split; [lia|intros; lia]).
  - destruct (RemoveLink m l s w) as [[err|] w1]; simpl.
    all: eexists _, _, _; split; [reflexivity|]; split; [lia|done].
  - destruct (Remove l w) as [[err|] w1]; simpl.
    all: eexists _, _, _; split; [reflexivity|]; split; [lia|done].
Qed.

(** Any relation between worlds that the removals of [clean] keep
    holds for its loop. *)
Lemma clean_loop_world (R : World → World → Prop) fl m s links r k w out :
  (∀ w, R w w) → (∀ w1 w2 w3, R w1 w2 → R w2 w3 → R w1 w3) →
  (∀ l w, R w (RemoveLink m l s w).2) →
  (∀ l w, Status (CheckLink m l s w) = StatusBroken → R w (Remove l w).2) →
  R w (fold_left (cli.clean_step fl m s) links (r, k, w, out)).1.2.
Proof.
  intros Hrefl Htrans Hrm Hbr. revert r k w out.
  induction links as [|l links IH]; intros r k w out; cbn [fold_left]; [done|].
  destruct (clean_step_spec fl m s r k w out l) as (r' & k' & out' & -> & _).
  eapply Htrans; [|apply IH].
  destruct (cli.dryRun fl); [done|].
  destruct (Status (CheckLink m l s w)) eqn:Hst; auto.
Qed.

Lemma RemoveLink_shrinks m l s w : shrinks w (RemoveLink m l s w).2.
Proof.
  unfold RemoveLink. destruct (dryRun m); [apply shrinks_refl|].
  case_decide; [|apply shrinks_refl].
  destruct (Remove l w) as [[err|] w1] eqn:Hrm; by apply Remove_shrinks in Hrm.
Qed.

Lemma Broken_Remove_keeps m l s w :
  Status (CheckLink m l s w) = StatusBroken → keeps_files w (Remove l w).2.
Proof.
  intros Hst. destruct (Remove l w) as [[err|] w1] eqn:Hrm; simpl.
  { apply Remove_err in Hrm as ->. apply keeps_files_refl. }
  destruct (Broken_remove _ _ _ _ _ Hst Hrm) as (k & t & _ & _ & He & _).
  by apply (Remove_link_keeps _ _ _ _ He eq_refl) in Hrm.
Qed.


Lemma clean_loop_shrinks fl m s links r k w out :
  shrinks w (fold_left (cli.clean_step fl m s) links (r, k, w, out)).1.2.
Proof.
  apply clean_loop_world.
  - apply shrinks_refl.
  - apply shrinks_trans.
  - intros. apply RemoveLink_shrinks.
  - intros l w0 _. destruct (Remove l w0) eqn:Hrm. by apply Remove_shrinks in Hrm.
Qed.


Lemma clean_loop_counts fl m s links r k w out :
  let st := fold_left (cli.clean_step fl m s) links (r, k, w, out) in
  (st.1.1.1 + st.1.1.2 ≤ length links + (r + k))%nat
  ∧ (cli.dryRun fl = true →
     (st.1.1.1 + st.1.1.2 = length links + (r + k))%nat).
Proof.
  revert r k w out.
  induction links as [|l links IH]; intros r k w out; cbn [fold_left length].
  { simpl. split; [lia|done]. }
  destruct (clean_step_spec fl m s r k w out l) as (r' & k' & out' & -> & Hle & Heq).
  destruct (IH r' k'
              (if cli.dryRun fl then w
               else match Status (CheckLink m l s w) with
                    | StatusOK => (RemoveLink m l s w).2
                    | StatusBroken => (Remove l w).2
                    | _ => w
                    end) out') as [IH1 IH2].
  simpl in *. split; [lia|]. intros Hd. specialize (IH2 Hd). specialize (Heq Hd). lia.
Qed.

Lemma clean_loop_dry fl m s links r k w out :
  cli.dryRun fl = true →
  (fold_left (cli.clean_step fl m s) links (r, k, w, out)).1.2 = w.
Proof.
  intros Hd. revert r k out.
  induction links as [|l links IH]; intros r k out; cbn [fold_left]; [done|].
  destruct (clean_step_spec fl m s r k w out l) as (r' & k' & out' & -> & _).
  rewrite Hd. apply IH.
Qed.

(** X7.  [clean] removes nothing but symbolic links: whatever the
    flags, it returns no error, every regular file, directory and other
    node that is not a symbolic link is still there unchanged, and
    nothing has been added to the tree. *)
Theorem X7_clean_removes_only_links fl configPath isProject cfg w :
  (cli.runClean fl configPath isProject cfg w).1.1 = None
  ∧ keeps_files w (cli.runClean fl configPath isProject cfg w).1.2
  ∧ shrinks w (cli.runClean fl configPath isProject cfg w).1.2.
Proof.
  unfold cli.runClean.
  set (m := NewManager (cli.dryRun fl) (cli.force fl) (cli.verbose fl)).
  match goal with
  | |- context [fold_left ?f ?l (?r, ?k, w, ?o)] =>
      pose proof (clean_loop_world keeps_files fl m (cli.Source cfg) l r k w o
                    keeps_files_refl keeps_files_trans
                    (λ l0 w0, RemoveLink_keeps m l0 (cli.Source cfg) w0)
                    (λ l0 w0, Broken_Remove_keeps m l0 (cli.Source cfg) w0)) as Hk;
      pose proof (clean_loop_shrinks fl m (cli.Source cfg) l r k w o) as Hs;
      destruct (fold_left f l (r, k, w, o)) as [[[r' k'] w1] out2]
  end.
  simpl in Hk, Hs. by destruct (cli.dryRun fl).
Qed.

(** X8.  A dry run of [clean] changes nothing, and its summary counts
    every configured link, as one it would remove or as one it skips. *)
Theorem X8_dry_clean_pure fl configPath isProject cfg w :
  cli.dryRun fl = true →
  (cli.runClean fl configPath isProject cfg w).1.2 = w
  ∧ ∃ removedCount skippedCount,
      last (cli.runClean fl configPath isProject cfg w).2
      = Some (cli.printInfo
                "Dry run completed - would remove %d symlinks, skip %d items"
                [cli.AInt removedCount; cli.AInt skippedCount])
      ∧ (removedCount + skippedCount = length (cli.Links cfg))%nat.
Proof.
  intros Hd. unfold cli.runClean. rewrite Hd.
  set (m := NewManager true (cli.force fl) (cli.verbose fl)).
  match goal with
  | |- context [fold_left ?f ?l (?r, ?k, w, ?o)] =>
      pose proof (clean_loop_dry fl m (cli.Source cfg) l r k w o Hd) as Hw;
      pose proof (clean_loop_counts fl m (cli.Source cfg) l r k w o) as [_ Hc];
      destruct (fold_left f l (r, k, w, o)) as [[[r' k'] w1] out2]
  end.
  simpl in Hw, Hc. split; [done|].
  exists r', k'. simpl. rewrite last_snoc. split; [done|]. rewrite (Hc Hd). lia.
Qed.

Lemma X8_witness :
  let fl := {| cli.dryRun := true; cli.force := true; cli.verbose := false |} in
  let cfg := {| cli.Source := "/w/CLAUDE.md";
                cli.Links := ["/w/ok.md"; "/w/unread.md"; "/w/AGENTS.md"; "/w/ok.md"] |} in
  (cli.runClean fl "/w/.agentlink.yaml" true cfg project).1.2 = project
  ∧ ∃ removedCount skippedCount,
      last (cli.runClean fl "/w/.agentlink.yaml" true cfg project).2
      = Some (cli.printInfo
                "Dry run completed - would remove %d symlinks, skip %d items"
                [cli.AInt removedCount; cli.AInt skippedCount])
      ∧ (removedCount + skippedCount = 4)%nat.
Proof.
  intros fl cfg.
  apply (X8_dry_clean_pure fl "/w/.agentlink.yaml" true cfg project).
  reflexivity.
Defined.



(** * Facts about the configuration *)

Lemma IsAbs_nonempty p : filepath.IsAbs p = true → p ≠ "".
Proof. by destruct p. Qed.

Lemma IsAbs_Join a b :
  filepath.IsAbs a = true → filepath.IsAbs (filepath.Join a b) = true.
Proof.
  intros Ha. unfold filepath.Join.
  rewrite decide_False by by apply IsAbs_nonempty.
  rewrite IsAbs_Clean, IsAbs_app; [done|by apply IsAbs_nonempty].
Qed.

Lemma IsAbs_not_home p : filepath.IsAbs p = true → wants_home p = false.
Proof.
  destruct p as [|c p]; [done|]. unfold wants_home. simpl.
  intros Hc%Ascii.eqb_eq. by subst c.
Qed.

Lemma IsAbs_Dir path :
  filepath.IsAbs path = true → filepath.IsAbs (filepath.Dir path) = true.
Proof.
  intros Ha. unfold filepath.Dir. rewrite IsAbs_Clean.
  destruct path as [|ch path]; [done|].
  simpl in Ha. apply Ascii.eqb_eq in Ha as ->. simpl.
  destruct (filepath.fields path) as [|f fs] eqn:Hf; [by apply fields_nonnil in Hf|].
  rewrite <-app_comm_cons.
  destruct (removelast (f :: fs) ++ [""]) as [|x xs] eqn:Hx; [|done].
  by apply app_eq_nil in Hx as [_ [=]].
Qed.

(** A successful [expandPath] gives a clean path, absolute when the
    base directory is. *)
Lemma expandPath_ok env path baseDir p :
  config.expandPath env path baseDir = Ok p →
  filepath.Clean p = p
  ∧ (filepath.IsAbs baseDir = true → filepath.IsAbs p = true).
Proof.
  unfold config.expandPath.
  destruct (String.prefix "~/" path); [destruct (UserHomeDir env); [|done]|].
  all: match goal with
       | |- context [negb (filepath.IsAbs ?q)] =>
           destruct (filepath.IsAbs q) eqn:Ha
       end; simpl; intros [= <-].
  all: split; [apply Clean_idem|intros Hb; rewrite IsAbs_Clean].
  all: first [done|by apply IsAbs_Join].
Qed.

(** [expandPath] fails only for want of a home directory. *)
Lemma expandPath_err env path baseDir :
  is_err (config.expandPath env path baseDir)
  = wants_home path && bool_decide (Getenv env "HOME" = "").
Proof.
  unfold config.expandPath, wants_home, UserHomeDir.
  destruct (String.prefix "~/" path); [|done]. simpl.
  case_decide; by case_bool_decide.
Qed.

(** An absolute clean path expands to itself. *)
Lemma expandPath_fixed env p baseDir :
  absolute_clean p → config.expandPath env p baseDir = Ok p.
Proof.
  intros [Ha Hc]. unfold config.expandPath.
  pose proof (IsAbs_not_home _ Ha) as Hh. unfold wants_home in Hh.
  rewrite Hh, Ha. simpl. by rewrite Hc.
Qed.

Lemma expandLinks_ok env configDir links links' :
  config.expandLinks env configDir links = (None, links') →
  Forall2 (λ l p, config.expandPath env l configDir = Ok p) links links'.
Proof.
  revert links'. induction links as [|l links IH]; intros links'; simpl.
  { intros [= <-]. constructor. }
  destruct (config.expandPath env l configDir) as [p|e] eqn:Hp; [|done].
  destruct (config.expandLinks env configDir links) as [err rest'].
  intros [= -> <-]. constructor; [done|]. by apply IH.
Qed.

Lemma expandLinks_err env configDir links :
  (config.expandLinks env configDir links).1 = None
  ↔ Forall (λ l, is_err (config.expandPath env l configDir) = false) links.
Proof.
  induction links as [|l links IH]; simpl; [done|].
  destruct (config.expandPath env l configDir) as [p|e] eqn:Hp; simpl.
  - destruct (config.expandLinks env configDir links) as [err rest']. simpl in *.
    rewrite IH. split; [|by inversion 1].
    intros Hall. constructor; [by rewrite Hp|done].
  - split; [done|]. intros Hall. inversion Hall as [|?? Hx]. by rewrite Hp in Hx.
Qed.

Lemma expandLinks_fixed env configDir links :
  Forall absolute_clean links →
  config.expandLinks env configDir links = (None, links).
Proof.
  induction 1 as [|l links Hl _ IH]; simpl; [done|].
  by rewrite (expandPath_fixed _ _ _ Hl), IH.
Qed.

(** What a successful [LoadConfig] went through. *)
Lemma LoadConfig_ok env path c c' :
  config.LoadConfig env path c = Ok c' →
  cli.Source c ≠ "" ∧ cli.Links c ≠ []
  ∧ config.expandPath env (cli.Source c) (filepath.Dir path) = Ok (cli.Source c')
  ∧ Forall2 (λ l p, config.expandPath env l (filepath.Dir path) = Ok p)
      (cli.Links c) (cli.Links c').
Proof.
  unfold config.LoadConfig, config.Validate, config.ExpandPaths.
  case_decide as Hs; [done|]. case_decide as Hl; [done|].
  destruct (config.expandPath env (cli.Source c) _) as [src|e] eqn:Hsrc; [|done].
  destruct (config.expandLinks env _ (cli.Links c)) as [[err|] links'] eqn:Hlk;
    [done|].
  intros [= <-]. simpl. split_and!; [done| |done|by apply expandLinks_ok].
  by destruct (cli.Links c).
Qed.

(** X10.  The paths of a loaded configuration: when the configuration
    file is given by an absolute path, a successful [LoadConfig] returns
    a source and links that are all absolute and clean, with as many
    links as the file held, at least one. *)
Theorem X10_loaded_paths_absolute env path c c' :
  filepath.IsAbs path = true →
  config.LoadConfig env path c = Ok c' →
  absolute_clean (cli.Source c')
  ∧ Forall absolute_clean (cli.Links c')
  ∧ length (cli.Links c') = length (cli.Links c)
  ∧ cli.Links c' ≠ [].
Proof.
  intros Ha (Hs & Hl & Hsrc & Hlk)%LoadConfig_ok.
  pose proof (IsAbs_Dir _ Ha) as Hd.
  split_and!.
  - apply expandPath_ok in Hsrc as [? Habs]. split; [by apply Habs|done].
  - clear Hl. induction Hlk as [|l p ls ps Hp _ IH]; constructor; [|done].
    apply expandPath_ok in Hp as [? Habs]. split; [by apply Habs|done].
  - symmetry. by apply Forall2_length in Hlk.
  - intros Hnil. rewrite Hnil in Hlk. inversion Hlk. congruence.
Qed.

Lemma X10_witness :
  let home : Environ := {[ "HOME" := "/home/u" ]} in
  let c' := {| cli.Source := "/w/CLAUDE.md";
               cli.Links := ["/w/AGENTS.md"; "/home/u/.config/x/AGENTS.md"; "/CLAUDE.md"] |} in
  absolute_clean (cli.Source c')
  ∧ Forall absolute_clean (cli.Links c')
  ∧ length (cli.Links c') = 3
  ∧ cli.Links c' ≠ [].
Proof.
  intros home c'.
  apply (X10_loaded_paths_absolute home "/w/.agentlink.yaml"
           {| cli.Source := "CLAUDE.md";
              cli.Links := ["./sub/../AGENTS.md"; "~/.config//x/AGENTS.md";
                            "../CLAUDE.md"] |} c');
    [reflexivity|].
  vm_compute. reflexivity.
Defined.

(** X11.  When [LoadConfig] succeeds: exactly when the source is not
    empty, there is at least one link and, if any of the paths begins
    with [~/], the variable [HOME] is set and not empty. *)
Theorem X11_load_succeeds env path c :
  is_err (config.LoadConfig env path c) = false
  ↔ cli.Source c ≠ "" ∧ cli.Links c ≠ []
    ∧ (Getenv env "HOME" ≠ ""
       ∨ Forall (λ p, wants_home p = false) (cli.Source c :: cli.Links c)).
Proof.
  unfold config.LoadConfig, config.Validate, config.ExpandPaths.
  case_decide as Hs; [by split; [|intros [? _]]|].
  case_decide as Hl.
  { split; [done|]. intros (_ & Hn & _). by destruct (cli.Links c). }
  assert (Hne : cli.Links c ≠ []) by by destruct (cli.Links c).
  pose proof (expandPath_err env (cli.Source c) (filepath.Dir path)) as Herr.
  pose proof (expandLinks_err env (filepath.Dir path) (cli.Links c)) as Hlk.
  destruct (config.expandPath env (cli.Source c) _) as [src|e]; simpl in Herr.
  - destruct (config.expandLinks env _ (cli.Links c)) as [[err|] links']; simpl in *.
    + split; [done|]. intros (_ & _ & Hor).
      assert (Hall : Forall (λ l, is_err (config.expandPath env l (filepath.Dir path))
                                  = false) (cli.Links c)); [|by apply Hlk in Hall].
      destruct Hor as [Hh|Hall].
      * apply Forall_forall. intros l _. rewrite expandPath_err.
        rewrite (bool_decide_eq_false_2 _ Hh). apply andb_false_r.
      * inversion Hall as [|?? _ Hls]; subst.
        eapply Forall_impl; [exact Hls|]. intros l Hw. simpl in Hw.
        by rewrite expandPath_err, Hw.
    + split; [|done]. intros _. split_and!; [done|done|].
      destruct (decide (Getenv env "HOME" = "")) as [Hh|Hh]; [|by left].
      right. constructor.
      * symmetry in Herr. apply andb_false_iff in Herr as [?|Hb]; [done|].
        by apply bool_decide_eq_false in Hb.
      * destruct Hlk as [Hlk _]. specialize (Hlk eq_refl).
        eapply Forall_impl; [exact Hlk|]. intros l Hw. simpl in Hw.
        rewrite expandPath_err in Hw. apply andb_false_iff in Hw as [?|Hb]; [done|].
        by apply bool_decide_eq_false in Hb.
  - split; [done|]. intros (_ & _ & Hor). symmetry in Herr.
    apply andb_true_iff in Herr as [Hw Hb]. apply bool_decide_eq_true in Hb.
    destruct Hor as [?|Hall]; [done|]. inversion Hall; congruence.
Qed.

(** X12.  Loading is idempotent: a configuration that [LoadConfig]
    returned for an absolute file path passes [LoadConfig] again
    unchanged, for any file path and any environment. *)
Theorem X12_load_idempotent env path c c' env' path' :
  filepath.IsAbs path = true →
  config.LoadConfig env path c = Ok c' →
  config.LoadConfig env' path' c' = Ok c'.
Proof.
  intros Ha Hload.
  pose proof (IsAbs_Dir _ Ha) as Hd.
  apply LoadConfig_ok in Hload as (Hs & Hl & Hsrc & Hlk).
  assert (Hsa : absolute_clean (cli.Source c')).
  { apply expandPath_ok in Hsrc as [? Habs]. split; [by apply Habs|done]. }
  assert (Hla : Forall absolute_clean (cli.Links c')).
  { clear Hl. induction Hlk as [|l p ls ps Hp _ IH]; constructor; [|done].
    apply expandPath_ok in Hp as [? Habs]. split; [by apply Habs|done]. }
  unfold config.LoadConfig, config.Validate, config.ExpandPaths.
  rewrite decide_False by (apply IsAbs_nonempty, Hsa).
  rewrite decide_False.
  2: { intros Hlen. destruct (cli.Links c'); [|done].
       inversion Hlk. congruence. }
  rewrite (expandPath_fixed _ _ _ Hsa), (expandLinks_fixed _ _ _ Hla).
  by destruct c'.
Qed.

Lemma X12_witness :
  let home : Environ := {[ "HOME" := "/home/u" ]} in
  let c' := {| cli.Source := "/w/CLAUDE.md";
               cli.Links := ["/w/AGENTS.md"; "/home/u/.config/x/AGENTS.md"] |} in
  config.LoadConfig ∅ "elsewhere/config.yaml" c' = Ok c'.
Proof.
  intros home c'.
  apply (X12_load_idempotent home "/w/.agentlink.yaml"
           {| cli.Source := "CLAUDE.md";
              cli.Links := ["./sub/../AGENTS.md"; "~/.config//x/AGENTS.md"] |});
    [reflexivity|].
  vm_compute. reflexivity.
Defined.

Lemma substring_all s : String.substring 0 (String.length s) s = s.
Proof. induction s as [|c s IH]; simpl; [done|by rewrite IH]. Qed.

Lemma prefix_home rest : String.prefix "~/" ("~/" +:+ rest) = true.
Proof.
  apply String.prefix_correct.
  change ("~/" +:+ rest) with (String "~" (String "/" rest)). by destruct rest.
Qed.

Lemma after_home rest :
  String.substring 2 (String.length ("~/" +:+ rest) - 2) ("~/" +:+ rest) = rest.
Proof.
  change ("~/" +:+ rest) with (String "~" (String "/" rest)). simpl.
  by rewrite Nat.sub_0_r, substring_all.
Qed.

(** X13.  What [expandPath] does, case by case: an absolute path is
    cleaned and the base directory plays no part; a relative path that
    does not begin with [~/] is joined to the base directory; a path
    [~/rest] becomes [rest] joined to the home directory when [HOME] is
    an absolute path. *)
Theorem X13_expandPath_cases env baseDir :
  (∀ path, filepath.IsAbs path = true →
     config.expandPath env path baseDir = Ok (filepath.Clean path))
  ∧ (∀ path, wants_home path = false → filepath.IsAbs path = false →
       baseDir ≠ "" →
       config.expandPath env path baseDir = Ok (filepath.Join baseDir path))
  ∧ (∀ rest, filepath.IsAbs (Getenv env "HOME") = true →
       config.expandPath env ("~/" +:+ rest) baseDir
       = Ok (filepath.Join (Getenv env "HOME") rest)).
Proof.
  split_and!.
  - intros path Ha. unfold config.expandPath.
    pose proof (IsAbs_not_home _ Ha) as Hh. unfold wants_home in Hh.
    by rewrite Hh, Ha.
  - intros path Hh Ha Hb. unfold config.expandPath. unfold wants_home in Hh.
    rewrite Hh, Ha. simpl. unfold filepath.Join.
    rewrite decide_False by done. by rewrite Clean_idem.
  - intros rest Ha. unfold config.expandPath, UserHomeDir.
    rewrite prefix_home, after_home.
    rewrite decide_True by by apply IsAbs_nonempty.
    rewrite (IsAbs_Join _ rest Ha). simpl.
    unfold filepath.Join. rewrite decide_False by by apply IsAbs_nonempty.
    by rewrite Clean_idem.
Qed.

Lemma X13_witness :
  let env : Environ := {[ "HOME" := "/home/u" ]} in
  config.expandPath env "/a/../b/" "/w" = Ok "/b"
  ∧ config.expandPath env "sub/AGENTS.md" "/w" = Ok "/w/sub/AGENTS.md"
  ∧ config.expandPath env "~/absolute.md" "/w" = Ok "/home/u/absolute.md".
Proof.
  intros env.
  destruct (X13_expandPath_cases env "/w") as (Habs & Hrel & Hhome).
  split_and!.
  - apply (Habs "/a/../b/"). reflexivity.
  - apply (Hrel "sub/AGENTS.md"); [reflexivity|reflexivity|discriminate].
  - apply (Hhome "absolute.md"). reflexivity.
Defined.

(** * Properties of the manager *)

(** [Symlink] fails on a name that is taken. *)
Lemma Symlink_exists oldname newname w i :
  entry_at newname w = inr i →
  ∃ err, Symlink oldname newname w = (Some err, w).
Proof.
  unfold entry_at, Symlink. case_decide; [by eexists|].
  destruct (namei w false newname) as [e|k]; [done|].
  destruct (inode_at w k); [by eexists|done].
Qed.

(** X14.  [CreateLink] never overwrites: when the link path names
    an entry of any kind, a real [CreateLink] fails, the entry is still
    there as it was and no node of the tree is lost. *)
Theorem X14_create_never_overwrites m linkPath targetPath w i :
  dryRun m = false →
  entry_at linkPath w = inr i →
  ∃ err w', CreateLink m linkPath targetPath w = (Some err, w')
            ∧ entry_at linkPath w' = inr i
            ∧ files w ⊆ files w'.
Proof.
  intros Hd He. unfold CreateLink. rewrite Hd.
  destruct (MkdirAll _ w) as [[err|] w1] eqn:Hm;
    apply MkdirAll_grows in Hm as [Hsub Hcwd].
  { eexists _, _. split_and!; [done| |done]. by apply (entry_at_mono w). }
  pose proof (entry_at_mono _ _ _ _ Hsub Hcwd He) as He1.
  destruct (filepath.Rel _ _) as [rel|e]; [|by eexists _, _].
  destruct (Symlink_exists rel _ _ _ He1) as [err ->]. by eexists _, _.
Qed.

Lemma X14_witness :
  ∃ err w', CreateLink (NewManager false true false) "/w/AGENTS.md" "/w/CLAUDE.md" project
            = (Some err, w')
            ∧ entry_at "/w/AGENTS.md" w' = inr (RegularFile "Y")
            ∧ files project ⊆ files w'.
Proof.
  apply (X14_create_never_overwrites (NewManager false true false)
           "/w/AGENTS.md" "/w/CLAUDE.md" project (RegularFile "Y")); reflexivity.
Defined.

(** X15.  [CheckLink] sets [Error] exactly when it reports [Broken],
    so the line [check] has for a broken link without an error is never
    printed. *)
Theorem X15_broken_has_error m linkPath expectedTarget w :
  (Error (CheckLink m linkPath expectedTarget w) ≠ None
   ↔ Status (CheckLink m linkPath expectedTarget w) = StatusBroken)
  ∧ ∀ source maxPathLen,
      cli.Printf ("broken ✗" +:+ cli.nl) []
      ∉ cli.check_line source maxPathLen linkPath
          (CheckLink m linkPath expectedTarget w).
Proof.
  assert (Hiff : Error (CheckLink m linkPath expectedTarget w) ≠ None
                 ↔ Status (CheckLink m linkPath expectedTarget w) = StatusBroken).
  { unfold CheckLink. destruct (Lstat linkPath w) as [fi|err].
    - destruct (_ =? _)%Z; [done|].
      destruct (Readlink linkPath w); [by case_decide|done].
    - by destruct (IsNotExist err). }
  split; [done|]. intros source n. unfold cli.check_line.
  destruct (Status (CheckLink m linkPath expectedTarget w)) eqn:Hst.
  5: { destruct (Error (CheckLink m linkPath expectedTarget w)) eqn:He.
       - intros [[=]|[[=]|[]%elem_of_nil]%elem_of_cons]%elem_of_cons.
       - by destruct (proj2 Hiff eq_refl). }
  all: intros [[=]|[[=]|[]%elem_of_nil]%elem_of_cons]%elem_of_cons.
Qed.

(** The loop that computes [maxPathLen] keeps a running maximum. *)
Lemma max_path_len_fold links n0 :
  let n := fold_left (λ maxPathLen linkPath,
                        if decide (maxPathLen < String.length linkPath)
                        then String.length linkPath else maxPathLen) links n0 in
  (n0 ≤ n)%nat ∧ (∀ l, l ∈ links → (String.length l ≤ n)%nat)
  ∧ (n = n0 ∨ ∃ l, l ∈ links ∧ String.length l = n).
Proof.
  revert n0. induction links as [|l links IH]; intros n0; simpl.
  { split_and!; [lia|by intros ? ?%elem_of_nil|by left]. }
  destruct (IH (if decide (n0 < String.length l) then String.length l else n0))
    as (Hle & Hall & Hor).
  split_and!.
  - case_decide; lia.
  - intros l' [->|Hin]%elem_of_cons; [case_decide; lia|by apply Hall].
  - destruct Hor as [->|(l' & Hin & Hl')].
    + case_decide; [right; exists l; split; [by left|done]|by left].
    + right. exists l'. split; [by right|done].
Qed.

(** X16.  The width [check] gives the path column is the length of
    the longest configured link path: no link is longer, and one of
    them is that long (the width is 0 when there is no link). *)
Theorem X16_path_column_width links :
  (∀ linkPath, linkPath ∈ links →
     (String.length linkPath ≤ cli.max_path_len links)%nat)
  ∧ (links ≠ [] →
     ∃ linkPath, linkPath ∈ links
                 ∧ String.length linkPath = cli.max_path_len links)
  ∧ cli.max_path_len [] = 0.
Proof.
  destruct (max_path_len_fold links 0) as (_ & Hall & Hor).
  split_and!; [done| |done].
  intros Hne. destruct Hor as [H0|?]; [|done].
  destruct links as [|l links]; [done|]. exists l. split; [by left|].
  assert (Hl : (String.length l ≤ cli.max_path_len (l :: links))%nat)
    by (apply Hall; by left).
  unfold cli.max_path_len in *. lia.
Qed.

Lemma X16_witness :
  ∃ linkPath, linkPath ∈ ["/w/AGENTS.md"; "/w/.agent/AGENTS.md"; "/w/x.md"]
              ∧ String.length linkPath
                = cli.max_path_len ["/w/AGENTS.md"; "/w/.agent/AGENTS.md"; "/w/x.md"].
Proof.
  apply (X16_path_column_width ["/w/AGENTS.md"; "/w/.agent/AGENTS.md"; "/w/x.md"]).
  discriminate.
Defined.





Lemma set_files_id w : set_files w (files w) = w.
Proof. by destruct w. Qed.



(** * Resolution in a tree of plain directories *)

Lemma walk_dirs b fs f cur names rest :
  Forall filepath.plain names →
  (∀ n, 0 < n ≤ length names → fs !! (cur ++ take n names) = Some Directory) →
  walk b fs f cur (names ++ rest) = walk b fs f (cur ++ names) rest.
Proof.
  revert cur. induction names as [|x names IH]; intros cur Hp Hd; simpl.
  { by rewrite app_nil_r. }
  inversion Hp as [|?? (Hn & Hdot & Hdd) Hp']; subst. rewrite walk_cons.
  rewrite decide_False by done. rewrite decide_False by done.
  pose proof (Hd 1) as H1. simpl in H1. rewrite take_0 in H1.
  rewrite H1 by lia.
  rewrite IH; [by rewrite <-app_assoc|done|].
  intros n Hn'. rewrite <-app_assoc. apply (Hd (S n)). simpl. lia.
Qed.

Lemma walk_dotdots b fs f c bs rest :
  walk b fs f (c ++ bs) (replicate (length bs) ".." ++ rest) = walk b fs f c rest.
Proof.
  induction bs as [|x bs IH] using rev_ind; simpl.
  { by rewrite app_nil_r. }
  rewrite length_app, Nat.add_1_r. simpl. rewrite walk_cons.
  rewrite decide_False by done. rewrite decide_True by done.
  by rewrite app_assoc, removelast_last.
Qed.

Lemma walk_last_nofollow b fs cur x :
  filepath.plain x → walk b fs false cur [x] = inr (cur ++ [x]).
Proof.
  intros (_ & Hdot & Hdd). rewrite walk_cons.
  rewrite decide_False by done. rewrite decide_False by done.
  destruct (fs !! (cur ++ [x])) as [[]|]; by rewrite ?walk_nil.
Qed.

Lemma walk_last_node b fs f cur x i :
  filepath.plain x → fs !! (cur ++ [x]) = Some i → is_symlink i = false →
  walk b fs f cur [x] = inr (cur ++ [x]).
Proof.
  intros (_ & Hdot & Hdd) Hi Hs. rewrite walk_cons.
  rewrite decide_False by done. rewrite decide_False by done.
  rewrite Hi. destruct i; by rewrite ?walk_nil.
Qed.

Lemma join_sep_snoc l x :
  l ≠ [] → filepath.join_sep (l ++ [x]) = filepath.join_sep l +:+ "/" +:+ x.
Proof.
  unfold filepath.join_sep. induction l as [|a [|b l] IH]; [done|done|].
  intros _. specialize (IH ltac:(done)).
  change (a +:+ "/" +:+ String.concat "/" ((b :: l) ++ [x])
          = (a +:+ "/" +:+ String.concat "/" (b :: l)) +:+ "/" +:+ x).
  by rewrite IH, !append_assoc.
Qed.

Lemma cleaned_plain r l : Forall filepath.plain l → filepath.cleaned r l.
Proof. intros Hl. by exists 0, l. Qed.

Lemma plain_names l : Forall filepath.plain l → Forall filepath.is_name l.
Proof. intros Hl. eapply Forall_impl; [exact Hl|]. by intros ? [? _]. Qed.

Lemma prefix_path_rooted es : prefix_path true es = filepath.render true es.
Proof. done. Qed.

Lemma Clean_render r l :
  filepath.cleaned r l → filepath.Clean (filepath.render r l) = filepath.render r l.
Proof.
  intros Hc. unfold filepath.Clean.
  by rewrite (IsAbs_render _ _ (cleaned_names _ _ Hc)), (elems_render _ _ Hc).
Qed.

Lemma elements_render_rooted l :
  Forall filepath.is_name l → filepath.elements (filepath.render true l) = l.
Proof. intros Hl. unfold filepath.render. by rewrite elements_rooted, elements_join. Qed.

(** The directory of a clean absolute path is the path of the elements
    before the last. *)
Lemma Dir_render dl name :
  Forall filepath.plain (dl ++ [name]) →
  filepath.Dir (filepath.render true (dl ++ [name])) = filepath.render true dl.
Proof.
  intros [Hdl Hname]%Forall_app. inversion Hname as [|?? (Hn & _) _]; subst.
  rewrite <-Dir_clean, <-(Clean_render true dl) by by apply cleaned_plain.
  assert (Hd : filepath.Dir (filepath.render true (dl ++ [name]))
               = filepath.Clean (filepath.render true dl +:+ "/")).
  { destruct dl as [|d dl].
    - change (filepath.render true ([] ++ [name])) with ("" +:+ "/" +:+ name).
      rewrite Dir_app_name by apply Hn. done.
    - unfold filepath.render. rewrite join_sep_snoc by done.
      rewrite <-append_assoc. rewrite Dir_app_name by apply Hn.
      by rewrite append_assoc. }
  rewrite Hd, Clean_idem. apply Clean_eq.
  - destruct dl; [done|]. unfold filepath.render. by rewrite !IsAbs_app.
  - change (filepath.render true dl +:+ "/") with (filepath.render true dl +:+ "/" +:+ "").
    rewrite elems_app_sep by (destruct dl; done).
    rewrite (IsAbs_render _ _ (plain_names _ Hdl)).
    rewrite (elems_render true dl) by by apply cleaned_plain.
    change (filepath.elements "") with (@nil string). simpl.
    by rewrite rev_involutive.
Qed.

Lemma strip_common_idem b t b' t' :
  filepath.strip_common b t = (b', t') → filepath.strip_common b' t' = (b', t').
Proof.
  revert t. induction b as [|x b IH]; intros [|y t]; simpl; try by intros [= <- <-].
  case_decide as Hxy; [apply IH|]. intros [= <- <-]. simpl.
  by rewrite decide_False.
Qed.

(** The relative path between two clean absolute paths: up from what
    is left of the base after the common prefix, then down the rest. *)
Lemma Rel_render dl ks :
  Forall filepath.plain dl → Forall filepath.plain ks → dl ≠ ks →
  ∃ c b t, dl = c ++ b ∧ ks = c ++ t ∧ replicate (length b) ".." ++ t ≠ []
           ∧ filepath.Rel (filepath.render true dl) (filepath.render true ks)
             = Ok (filepath.join_sep (replicate (length b) ".." ++ t)).
Proof.
  intros Hdl Hks Hne.
  destruct (filepath.strip_common dl ks) as [b t] eqn:Hsc.
  destruct (strip_common_spec _ _ _ _ Hsc) as (c & -> & ->).
  exists c, b, t. split_and!; [done|done| |].
  - by destruct b, t.
  - apply (Rel_elems _ _ c).
    + by rewrite !IsAbs_render by by apply plain_names.
    + by rewrite elems_render by by apply cleaned_plain.
    + by rewrite elems_render by by apply cleaned_plain.
    + by apply strip_common_idem in Hsc.
    + intros ->. done.
    + apply Forall_app in Hdl as [_ Hb]. destruct b as [|x b]; [done|].
      inversion Hb as [|?? (_ & _ & Hdd) _]; subst. simpl. by intros [= ->].
Qed.

Lemma real_dirs_mono w w' k :
  files w ⊆ files w' → real_dirs w k → real_dirs w' k.
Proof.
  intros Hsub Hr n Hn. by apply (lookup_weaken _ _ _ _ (Hr n Hn) Hsub).
Qed.

Lemma real_dirs_take w k n : real_dirs w k → real_dirs w (take n k).
Proof.
  intros Hr j Hj. rewrite length_take in Hj. rewrite take_take.
  replace (j `min` n) with j by lia. apply Hr. lia.
Qed.

(** X18.  A created link leads to the source.  In a tree where the
    directories down to the link and down to the source are plain
    directories (no symbolic link among them), for a link path and a
    source path that are absolute and clean, and a source that is a
    regular file: after a real [CreateLink] that succeeds, resolving the
    link path with the final link followed ends at the source file, so
    reading through the link reads the source. *)
Theorem X18_link_leads_to_source m dl name ks content w w' :
  dryRun m = false →
  Forall filepath.plain (dl ++ [name]) → Forall filepath.plain ks →
  real_dirs w dl → real_dirs w (removelast ks) →
  inode_at w ks = Some (RegularFile content) →
  CreateLink m (prefix_path true (dl ++ [name])) (prefix_path true ks) w = (None, w') →
  entry_through (prefix_path true (dl ++ [name])) w' = inr (RegularFile content).
Proof.
  intros Hd Hlp Hks Hrd Hrs Hsrc.
  pose proof Hlp as [Hdl Hname]%Forall_app.
  inversion Hname as [|?? Hnm _]; subst.
  assert (Hksne : ks ≠ []) by (intros ->; done).
  rewrite (inode_at_nonroot _ _ Hksne) in Hsrc.
  assert (Hne : dl ≠ ks).
  { intros ->. pose proof (Hrd (length ks)) as Hk. rewrite take_ge in Hk by lia.
    destruct ks; [done|]. simpl in Hk. rewrite Hsrc in Hk.
    by specialize (Hk ltac:(lia)). }
  destruct (Rel_render dl ks Hdl Hks Hne) as (c & b & t & -> & -> & Hrne & Hrel).
  assert (Htne : t ≠ []).
  { intros ->. rewrite app_nil_r in *.
    pose proof (Hrd (length c)) as Hk. rewrite take_app_length in Hk.
    rewrite Hsrc in Hk. destruct c; [done|]. rewrite length_app in Hk. simpl in Hk.
    by specialize (Hk ltac:(lia)). }
  destruct (exists_last Htne) as (t0 & x & ->).
  rewrite !prefix_path_rooted. unfold CreateLink. rewrite Hd.
  rewrite Dir_render, Hrel by done.
  destruct (MkdirAll _ w) as [[err|] w1] eqn:Hm; [done|].
  apply MkdirAll_grows in Hm as [Hsub1 _].
  set (rel := filepath.join_sep (replicate (length b) ".." ++ t0 ++ [x])) in *.
  destruct (Symlink rel _ w1) as [[err|] w2] eqn:Hsym; [done|]. intros [= ->].
  apply Symlink_ok in Hsym as (k & Hk & _ & Hnone & ->).
  assert (Hnames : Forall filepath.is_name (replicate (length b) ".." ++ t0 ++ [x])).
  { apply Forall_app. split; [|by apply plain_names, Forall_app in Hks as [_ ?]].
    apply Forall_replicate, is_name_dotdot. }
  (* where the link went *)
  assert (Hkl : k = (c ++ b) ++ [name]).
  { revert Hk. unfold namei.
    rewrite decide_False by (apply render_nonempty; by apply plain_names).
    rewrite IsAbs_render, elements_render_rooted by by apply plain_names.
    rewrite walk_dirs; [|done|].
    - rewrite walk_last_nofollow by done. by intros [= <-].
    - intros n Hn. by apply (lookup_weaken _ _ _ _ (Hrd n Hn) Hsub1). }
  subst k.
  (* the nodes on the two ways are still there *)
  assert (Hkeep : ∀ k' i, files w !! k' = Some i →
            (<[(c ++ b) ++ [name] := SymbolicLink rel true]> (files w1)) !! k' = Some i).
  { intros k' i Hi. rewrite lookup_insert_ne.
    - by apply (lookup_weaken _ _ _ _ Hi Hsub1).
    - intros <-. apply (lookup_weaken _ _ _ _ Hi) in Hsub1. congruence. }
  unfold entry_through, namei, set_files. cbn [files cwd].
  rewrite decide_False by (apply render_nonempty; by apply plain_names).
  rewrite IsAbs_render, elements_render_rooted by by apply plain_names.
  rewrite walk_dirs; [|done|by intros n Hn; apply Hkeep, Hrd].
  unfold MAXSYMLINKS. rewrite walk_cons.
  destruct Hnm as (_ & Hdot & Hdd).
  rewrite decide_False by done. rewrite decide_False by done.
  simpl app at 1. rewrite lookup_insert_eq. simpl negb. simpl andb.
  cbv iota.
  assert (Hrelne : rel ≠ "").
  { unfold rel. destruct (replicate (length b) ".." ++ t0 ++ [x]) as [|e es]; [done|].
    inversion Hnames; subst. by apply join_names_nonempty. }
  rewrite decide_False by done.
  rewrite (Rel_not_abs _ _ _ Hrel).
  assert (Hel : filepath.elements rel = replicate (length b) ".." ++ t0 ++ [x])
    by apply (elements_join _ Hnames).
  rewrite Hel, app_nil_r, app_nil_l.
  rewrite walk_dotdots.
  apply Forall_app in Hks as [_ [Ht0 Hx]%Forall_app].
  inversion Hx as [|?? Hxp _]; subst.
  rewrite walk_dirs; [|done|].
  2: { intros n Hn. apply Hkeep.
       rewrite app_assoc, removelast_last in Hrs.
       pose proof (Hrs (length c + n)) as Hr.
       rewrite take_app_add' in Hr by done. apply Hr.
       rewrite length_app. lia. }
  rewrite (walk_last_node _ _ _ _ _ (RegularFile content)); [|done| |done].
  2: { apply Hkeep. by rewrite <-app_assoc. }
  replace ((c ++ t0) ++ [x]) with (c ++ t0 ++ [x]) by by rewrite app_assoc.
  rewrite inode_at_nonroot by done. cbn [files]. by rewrite (Hkeep _ _ Hsrc).
Qed.

Lemma X18_witness :
  let m := NewManager false false false in
  entry_through "/w/docs/AGENTS.md"
    (CreateLink m "/w/docs/AGENTS.md" "/w/CLAUDE.md" project).2
  = inr (RegularFile "X").
Proof.
  intros m.
  apply (X18_link_leads_to_source m ["w"; "docs"] "AGENTS.md" ["w"; "CLAUDE.md"]
           "X" project).
  - reflexivity.
  - repeat constructor; done.
  - repeat constructor; done.
  - intros [|[|[|n]]] Hn; simpl in Hn; try lia; reflexivity.
  - intros [|[|n]] Hn; simpl in Hn; try lia; reflexivity.
  - reflexivity.
  - vm_compute. reflexivity.
Defined.




(** X20.  The report of [check]: whatever the state of the source,
    [check] prints its banner, the source line with ["OK"] or the
    validation error, the line ["Links:"], then for every configured
    link, once and in the order of the configuration, the two writes
    of its status line, and last the verdict that goes with what it
    returns. *)
Theorem X20_check_report fl configPath isProject cfg w :
  (cli.runCheck fl configPath isProject cfg w).2
  = (check_banner fl configPath isProject
     ++ [cli.Printf ("Source: %s [%s]" +:+ cli.nl)
           [cli.AString (cli.Source cfg);
            match ValidateSource (NewManager false false (cli.verbose fl))
                    (cli.Source cfg) w with
            | Some err => cli.ASprintf "ERROR: %v" err
            | None => cli.AString "OK"
            end];
         cli.Printf ("Links:" +:+ cli.nl) []])
    ++ check_report (NewManager false false (cli.verbose fl)) cfg w
    ++ [match (cli.runCheck fl configPath isProject cfg w).1 with
        | Some _ =>
            cli.Printf (cli.nl +:+ "Found problems. Run 'agentlink sync' to fix them."
                        +:+ cli.nl) []
        | None =>
            cli.Printf (cli.nl +:+ "All links are correctly configured ✓" +:+ cli.nl) []
        end].
Proof.
  unfold cli.runCheck, check_banner, check_report.
  set (m := NewManager false false (cli.verbose fl)).
  destruct (ValidateSource m (cli.Source cfg) w) as [err|]; cbv beta iota zeta.
  all: match goal with
       | |- context [fold_left _ _ (?hp0, ?o)] =>
           destruct (check_loop m (cli.Source cfg) (cli.max_path_len (cli.Links cfg))
                       w (cli.Links cfg) hp0 o) as (hp & -> & _)
       end.
  all: destruct (hp || _); simpl; by rewrite <-!app_assoc.
Qed.

(** * Finding the configuration *)

Lemma Stat_entry name w :
  Stat name w =
  match entry_through name w with
  | inl e => Err (PathError "stat" name e)
  | inr i => Ok {| Mode := mode_of i |}
  end.
Proof.
  unfold Stat, stat_with, entry_through.
  destruct (namei w true name) as [e|k]; [done|]. by destruct (inode_at w k).
Qed.

(** A relative path resolves only when the working directory is a
    directory of the tree. *)
Lemma namei_relative w f name k :
  filepath.IsAbs name = false → namei w f name = inr k →
  inode_at w (cwd w) = Some Directory.
Proof.
  unfold namei. case_decide; [done|]. intros ->.
  by destruct (inode_at w (cwd w)) as [[]|].
Qed.

Lemma Getwd_ok env w :
  inode_at w (cwd w) = Some Directory →
  ∃ wd, Getwd env w = Ok wd ∧ filepath.IsAbs wd = true.
Proof.
  intros Hc. unfold Getwd, namei.
  rewrite decide_False by done.
  change (filepath.IsAbs ".") with false. cbv iota. rewrite Hc.
  change (filepath.elements ".") with ["."].
  rewrite walk_cons, decide_True, walk_nil, Hc by done.
  destruct (filepath.IsAbs (Getenv env "PWD")) eqn:Ha; simpl.
  - case_bool_decide; eexists; split; try done.
  - by eexists.
Qed.

Lemma Clean_Join a b : a ≠ "" → filepath.Clean (filepath.Join a b) = filepath.Join a b.
Proof.
  intros Ha. unfold filepath.Join. rewrite decide_False by done. apply Clean_idem.
Qed.

(** The paths of a configuration loaded from an absolute path. *)
Lemma LoadConfig_absolute env path c c' :
  filepath.IsAbs path = true →
  config.LoadConfig env path c = Ok c' →
  absolute_clean (cli.Source c') ∧ Forall absolute_clean (cli.Links c').
Proof.
  intros Ha (Hs & Hl & Hsrc & Hlk)%LoadConfig_ok.
  pose proof (IsAbs_Dir _ Ha) as Hd. split.
  - apply expandPath_ok in Hsrc as [? Habs]. split; [by apply Habs|done].
  - clear Hl. induction Hlk as [|l p ls ps Hp _ IH]; constructor; [|done].
    apply expandPath_ok in Hp as [? Habs]. split; [by apply Habs|done].
Qed.

(** X21.  The project configuration: [FindConfigPath] answers with a
    project configuration exactly when [.agentlink.yaml] in the working
    directory leads, links followed, to a node of any kind; the path it
    returns is then absolute and clean, and so are the source and all
    links of a configuration loaded from it. *)
Theorem X21_project_config_path env w :
  ((config.FindConfigPath env w).2 = true
   ↔ ∃ i, entry_through ".agentlink.yaml" w = inr i)
  ∧ ((config.FindConfigPath env w).2 = true →
     absolute_clean (config.FindConfigPath env w).1
     ∧ ∀ c c', config.LoadConfig env (config.FindConfigPath env w).1 c = Ok c' →
               absolute_clean (cli.Source c')
               ∧ Forall absolute_clean (cli.Links c')).
Proof.
  unfold config.FindConfigPath. rewrite Stat_entry.
  destruct (entry_through ".agentlink.yaml" w) as [e|i] eqn:He; simpl.
  { split; [|done]. split; [done|]. by intros [i [=]]. }
  split; [split; [by eexists|done]|]. intros _.
  assert (Hc : inode_at w (cwd w) = Some Directory).
  { unfold entry_through in He.
    destruct (namei w true ".agentlink.yaml") as [e|k] eqn:Hk; [done|].
    by apply namei_relative in Hk. }
  destruct (Getwd_ok env w Hc) as (wd & Hwd & Ha).
  unfold config.Abs. change (filepath.IsAbs ".agentlink.yaml") with false.
  cbv iota. rewrite Hwd.
  assert (Hac : absolute_clean (filepath.Join wd ".agentlink.yaml")).
  { split; [by apply IsAbs_Join|]. apply Clean_Join. by apply IsAbs_nonempty. }
  split; [done|]. intros c c'. apply LoadConfig_absolute, Hac.
Qed.

Lemma X21_witness :
  let w := set_files project
             (<[ ["w"; ".agentlink.yaml"] := RegularFile "source: CLAUDE.md" ]>
                (files project)) in
  config.FindConfigPath ∅ w = ("/w/.agentlink.yaml", true)
  ∧ absolute_clean (config.FindConfigPath ∅ w).1.
Proof.
  intros w. split; [vm_compute; reflexivity|].
  apply (X21_project_config_path ∅ w). vm_compute. reflexivity.
Defined.

(** X22.  The global configuration: when there is no project
    configuration, [FindConfigPath] returns the path
    [.config/agentlink/config.yaml] below the value of [HOME]; that path
    is absolute and clean when [HOME] is an absolute path, and it is the
    relative path [.config/agentlink/config.yaml] when [HOME] is empty
    or not set. *)
Theorem X22_global_config_path env w :
  (config.FindConfigPath env w).2 = false →
  (config.FindConfigPath env w).1
  = filepath.join [Getenv env "HOME"; ".config"; "agentlink"; "config.yaml"]
  ∧ (filepath.IsAbs (Getenv env "HOME") = true →
     absolute_clean (config.FindConfigPath env w).1)
  ∧ (Getenv env "HOME" = "" →
     (config.FindConfigPath env w).1 = ".config/agentlink/config.yaml").
Proof.
  unfold config.FindConfigPath.
  destruct (Stat ".agentlink.yaml" w); [done|]. intros _. cbn [fst].
  assert (Hh : match UserHomeDir env with Ok homeDir => homeDir | Err _ => "" end
               = Getenv env "HOME").
  { unfold UserHomeDir. case_decide as Hv; [done|].
    by destruct (decide (Getenv env "HOME" = "")) as [->|]. }
  rewrite Hh. split_and!; [done| |].
  - intros Ha. unfold filepath.join.
    rewrite decide_False by by apply IsAbs_nonempty.
    split; [|apply Clean_idem]. rewrite IsAbs_Clean.
    change (filepath.join_sep [Getenv env "HOME"; ".config"; "agentlink"; "config.yaml"])
      with (Getenv env "HOME" +:+ "/.config/agentlink/config.yaml").
    rewrite IsAbs_app; [done|by apply IsAbs_nonempty].
  - intros ->. vm_compute. reflexivity.
Qed.

Lemma X22_witness :
  config.FindConfigPath {[ "HOME" := "/home/u" ]} project
  = ("/home/u/.config/agentlink/config.yaml", false)
  ∧ (config.FindConfigPath ∅ project).1 = ".config/agentlink/config.yaml".
Proof.
  split; [vm_compute; reflexivity|].
  apply (X22_global_config_path ∅ project); reflexivity.
Defined.

(** * Directories made on the way *)









(** What [processLink] prints goes to the standard output. *)
Lemma processLink_stdout fl m l s w x :
  x ∈ (cli.processLink fl m l s w).2 → cli.to x = cli.Stdout.
Proof.
  unfold cli.processLink.
  destruct (FixLink m l s w) as [[a|e] w1]; cbn [snd].
  2: { destruct (cli.verbose fl); [|by intros ?%elem_of_nil].
       by intros [->|?%elem_of_nil]%elem_of_cons. }
  intros [Hx|Hx]%elem_of_app.
  { destruct (cli.verbose fl); [|by apply elem_of_nil in Hx].
    by apply elem_of_cons in Hx as [->|?%elem_of_nil]. }
  repeat case_decide; try destruct (cli.verbose fl);
    try (by apply elem_of_nil in Hx);
    by apply elem_of_cons in Hx as [->|?%elem_of_nil].
Qed.

(** The flag of the link loop of [runSync] is set exactly when an
    error line has been printed. *)
Lemma sync_loop_stderr fl m s links he w out :
  (he = true ↔ ∃ x, x ∈ out ∧ cli.to x = cli.Stderr) →
  let st := fold_left (cli.sync_step fl m s) links (he, w, out) in
  st.1.1 = true ↔ ∃ x, x ∈ st.2 ∧ cli.to x = cli.Stderr.
Proof.
  revert he w out. induction links as [|l links IH]; intros he w out Hinv;
    cbn [fold_left]; [done|].
  destruct (cli.sync_step fl m s (he, w, out) l) as [[he1 w1] out1] eqn:Hstep.
  apply IH. revert Hstep. unfold cli.sync_step.
  pose proof (processLink_stdout fl m l s w) as Hout.
  destruct (cli.processLink fl m l s w) as [[[err|] w1'] o]; cbn [fst snd] in *.
  - intros [= <- <- <-]. split; [|done]. intros _.
    exists (cli.printError "Failed to process %s: %v" [cli.AString l; cli.AError err]).
    split; [|done]. rewrite !elem_of_app. right. right. apply elem_of_cons. by left.
  - intros [= <- <- <-]. rewrite Hinv.
    split; intros (x & Hx & Hs); exists x; (split; [|done]).
    + apply elem_of_app. by left.
    + apply elem_of_app in Hx as [?|Ho]; [done|].
      apply Hout in Ho. congruence.
Qed.

(** X24.  [sync] fails exactly when it has written to the standard
    error stream: once the configuration is loaded, it returns an error
    if and only if it printed an error line, for the source or for a
    link. *)
Theorem X24_sync_fails_iff_stderr fl configPath isProject cfg w :
  (cli.runSync fl configPath isProject cfg w).1.1 ≠ None
  ↔ ∃ x, x ∈ (cli.runSync fl configPath isProject cfg w).2
         ∧ cli.to x = cli.Stderr.
Proof.
  unfold cli.runSync.
  set (m := NewManager (cli.dryRun fl) (cli.force fl) (cli.verbose fl)).
  set (out0 := if cli.verbose fl then _ else _).
  assert (Hout0 : ∀ x, x ∈ out0 → cli.to x = cli.Stdout).
  { intros x. unfold out0. destruct (cli.verbose fl), isProject;
      first [by intros ?%elem_of_nil|by intros [->|?%elem_of_nil]%elem_of_cons]. }
  destruct (ValidateSource m (cli.Source cfg) w) as [err|]; cbn [fst snd].
  { split; [|done]. intros _.
    exists (cli.printError "Source validation failed: %v" [cli.AError err]).
    split; [|done]. apply elem_of_app. right. apply elem_of_cons. by left. }
  match goal with
  | |- context [fold_left ?f ?l (false, w, ?o)] =>
      pose proof (sync_loop_stderr fl m (cli.Source cfg) l false w o) as Hloop;
      destruct (fold_left f l (false, w, o)) as [[he w1] out2]
  end.
  cbn [fst snd] in Hloop.
  assert (Hinv : he = true ↔ ∃ x, x ∈ out2 ∧ cli.to x = cli.Stderr).
  { apply Hloop. split; [done|]. intros (x & [Hx|Hx]%elem_of_app & Hs).
    - apply Hout0 in Hx. congruence.
    - apply elem_of_cons in Hx as [->|?%elem_of_nil]; done. }
  destruct he; cbn [fst snd].
  - split; [intros _; by apply Hinv|done].
  - assert (Hno : ¬ ∃ x, x ∈ out2 ∧ cli.to x = cli.Stderr)
      by (by intros ?%Hinv).
    destruct (cli.dryRun fl); cbn [fst snd]; (split; [done|]).
    + intros (x & [Hx|Hx]%elem_of_app & Hs); [destruct Hno; by exists x|].
      by apply elem_of_cons in Hx as [->|?%elem_of_nil].
    + intros H. by destruct Hno.
Qed.

Lemma IsAbs_Dir_rel path :
  filepath.IsAbs path = false → filepath.IsAbs (filepath.Dir path) = false.
Proof.
  intros Ha. unfold filepath.Dir. rewrite IsAbs_Clean.
  destruct path as [|ch path]; [done|].
  simpl in Ha. cbn [filepath.fields]. rewrite Ha.
  destruct (filepath.fields path) as [|f fs] eqn:Hf; [by apply fields_nonnil in Hf|].
  destruct fs as [|f' fs]; [done|].
  change (removelast (String ch f :: f' :: fs))
    with (String ch f :: removelast (f' :: fs)).
  cbn [app]. unfold filepath.join_sep.
  destruct (removelast (f' :: fs) ++ [""]) as [|y ys] eqn:Hy.
  { by apply app_eq_nil in Hy as [_ [=]]. }
  change (filepath.IsAbs (String ch f +:+ "/" +:+ String.concat "/" (y :: ys)) = false).
  simpl. exact Ha.
Qed.

(** X25.  Link and source paths of different kinds: when one of the
    two is absolute and the other is relative, a real [CreateLink]
    fails (no relative target can be computed) and loses no node of the
    tree. *)
Theorem X25_create_mixed_paths_fails m linkPath targetPath w :
  dryRun m = false →
  filepath.IsAbs linkPath ≠ filepath.IsAbs targetPath →
  ∃ err w', CreateLink m linkPath targetPath w = (Some err, w')
            ∧ files w ⊆ files w'.
Proof.
  intros Hd Hmix. unfold CreateLink. rewrite Hd.
  destruct (MkdirAll _ w) as [[err|] w1] eqn:Hm;
    apply MkdirAll_grows in Hm as [Hsub _]; [by eexists _, _|].
  assert (Hrel : ∃ e, filepath.Rel (filepath.Dir linkPath) targetPath = Err e).
  { unfold filepath.Rel.
    assert (Hd' : filepath.IsAbs (filepath.Clean (filepath.Dir linkPath))
                  ≠ filepath.IsAbs (filepath.Clean targetPath)).
    { rewrite !IsAbs_Clean. destruct (filepath.IsAbs linkPath) eqn:Ha.
      - by rewrite IsAbs_Dir.
      - by rewrite IsAbs_Dir_rel. }
    rewrite decide_False by (intros Heq; by rewrite Heq in Hd').
    destruct (filepath.IsAbs (filepath.Clean (filepath.Dir linkPath))),
             (filepath.IsAbs (filepath.Clean targetPath)); try done; by eexists. }
  destruct Hrel as [e ->]. by eexists _, _.
Qed.

Lemma X25_witness :
  ∃ err w', CreateLink (NewManager false false false) "AGENTS.md" "/w/CLAUDE.md" project
            = (Some err, w')
            ∧ files project ⊆ files w'.
Proof.
  apply (X25_create_mixed_paths_fails (NewManager false false false)
           "AGENTS.md" "/w/CLAUDE.md" project); [reflexivity|discriminate].
Defined.

(** * Undoing [sync] *)








